(** * A shallow embedding of [server.py]: message relay with presence
      tracking and store-and-forward delivery.

    The four module-level dictionaries of the server ([USERS], [TOKENS],
    [CLIENTS], [MESSAGES]) become one record of finite maps; every handler
    becomes a computation in a small monad that threads the stores, collects
    what goes over the websockets, and carries Python exceptions.  What the
    environment decides is an input: the token [uuid4] draws, the frames
    that arrive, whether a write to a websocket goes through.  [print],
    CORS and the read-only routes [/users] and [/avatar] touch none of the
    stores and are left out. *)

From Stdlib Require Import ZArith String Ascii List Lia.
From stdpp Require Import base option strings gmap list.

Local Open Scope string_scope.
Local Open Scope list_scope.

Set Warnings "-register-all,-clear-no-such-hyp".

(** ** Python values *)

(** What [websocket.receive_json()] yields and what [send_json] takes: a
    parsed JSON document.  A [dict] is kept as its list of items; numbers
    are integers (every number is hashable and never equal to a [str], which
    is all the handlers observe of them). *)
Inductive json :=
| JNull
| JBool (b : bool)
| JNum (z : Z)
| JStr (s : string)
| JArr (l : list json)
| JObj (items : list (string * json)).

(** The exceptions the handlers raise or let through. *)
Inductive exn :=
| HTTPException (status : nat) (detail : string)
| KeyError
| TypeError
| AttributeError
| JSONDecodeError
| WebSocketDisconnect
| RuntimeError
| OSError.

Global Instance exn_eq_dec : EqDecision exn.
Proof. solve_decision. Defined.

Fixpoint items_get (k : string) (items : list (string * json)) : option json :=
  match items with
  | [] => None
  | (k', v) :: rest => if decide (k = k') then Some v else items_get k rest
  end.

(** [data.get(k)]: [None] (here [JNull]) when the key is missing; only a
    [dict] has the method. *)
Definition py_get (data : json) (k : string) : exn + json :=
  match data with
  | JObj items => inr (default JNull (items_get k items))
  | _ => inl AttributeError
  end.

(** [x == "lit"] for a JSON value [x]. *)
Definition str_eqb (x : json) (lit : string) : bool :=
  match x with
  | JStr s => bool_decide (s = lit)
  | _ => false
  end.

(** ** [str.strip()] *)

(** [str.isspace] on the code points below 256 (a character of a Rocq string
    stands for the code point of the same number). *)
Definition isspace (c : ascii) : bool :=
  let n := nat_of_ascii c in
  (((9 <=? n) && (n <=? 13)) || ((28 <=? n) && (n <=? 32))
   || (n =? 133) || (n =? 160))%nat.

Fixpoint lstrip (s : string) : string :=
  match s with
  | EmptyString => EmptyString
  | String c s' => if isspace c then lstrip s' else s
  end.

Fixpoint rstrip (s : string) : string :=
  match s with
  | EmptyString => EmptyString
  | String c s' =>
      match rstrip s' with
      | EmptyString => if isspace c then EmptyString else String c EmptyString
      | r => String c r
      end
  end.

Definition strip (s : string) : string := rstrip (lstrip s).

Fixpoint all_space (s : string) : bool :=
  match s with
  | EmptyString => true
  | String c s' => isspace c && all_space s'
  end.

Fixpoint last_char (s : string) : option ascii :=
  match s with
  | EmptyString => None
  | String c EmptyString => Some c
  | String _ s' => last_char s'
  end.

Definition first_char (s : string) : option ascii :=
  match s with
  | EmptyString => None
  | String c _ => Some c
  end.

(** ** The shared stores *)

(** A value of [USERS]: [{"password": ..., "avatar": ...}]. *)
Record user := User { password : string; avatar : option string }.

Record store := Store {
  USERS : gmap string user;            (* nick -> {password, avatar} *)
  TOKENS : gmap string string;         (* token -> nick *)
  CLIENTS : gmap string nat;           (* nick -> websocket *)
  MESSAGES : gmap string (list json)   (* nick -> [ {from, to, text} ] *)
}.

Definition empty_store : store := Store ∅ ∅ ∅ ∅.

Definition set_USERS (f : gmap string user → gmap string user) (s : store) :=
  Store (f (USERS s)) (TOKENS s) (CLIENTS s) (MESSAGES s).
Definition set_TOKENS (f : gmap string string → gmap string string) (s : store) :=
  Store (USERS s) (f (TOKENS s)) (CLIENTS s) (MESSAGES s).
Definition set_CLIENTS (f : gmap string nat → gmap string nat) (s : store) :=
  Store (USERS s) (TOKENS s) (f (CLIENTS s)) (MESSAGES s).
Definition set_MESSAGES (f : gmap string (list json) → gmap string (list json))
    (s : store) :=
  Store (USERS s) (TOKENS s) (CLIENTS s) (f (MESSAGES s)).

(** ** What a connection does on the wire *)

(** A websocket object is named by a number. *)
Inductive event :=
| Accepted (ws : nat)
| Closed (ws : nat)
| Received (ws : nat) (data : json)
| Sent (ws : nat) (frame : json).

(** What the next [receive_json()] of a connection meets. *)
Inductive inbound :=
| Frame (data : json)      (* a text frame holding a JSON document *)
| BadFrame                 (* a text frame that is not JSON *)
| BinaryFrame              (* a binary frame: the message has no ["text"] *)
| Disconnect.              (* the peer is gone *)

(** The state of the transports at one moment: [None] when a write to the
    websocket goes through, [Some e] when [send_json] raises [e]. *)
Definition transport := nat → option exn.

(** ** The handler monad: shared store, wire trace, exceptions *)

Definition M (A : Type) : Type := store → store * list event * (exn + A).

Definition ret {A} (a : A) : M A := λ s, (s, [], inr a).
Definition raise {A} (e : exn) : M A := λ s, (s, [], inl e).
Definition bind {A B} (m : M A) (f : A → M B) : M B :=
  λ s, match m s with
       | (s1, t1, inl e) => (s1, t1, inl e)
       | (s1, t1, inr a) =>
           match f a s1 with
           | (s2, t2, r) => (s2, t1 ++ t2, r)
           end
       end.

Global Instance M_ret : MRet M := @ret.
Global Instance M_bind : MBind M := λ A B f m, bind m f.

Definition gets {A} (f : store → A) : M A := λ s, (s, [], inr (f s)).
Definition modify (f : store → store) : M unit := λ s, (f s, [], inr tt).
Definition emit (e : event) : M unit := λ s, (s, [e], inr tt).
Definition lift {A} (r : exn + A) : M A := λ s, (s, [], r).

(** [try: m except e: h] *)
Definition try_except {A} (m : M A) (e : exn) (h : M A) : M A :=
  λ s, match m s with
       | (s1, t1, inl e') =>
           if decide (e' = e)
           then match h s1 with (s2, t2, r) => (s2, t1 ++ t2, r) end
           else (s1, t1, inl e')
       | r => r
       end.

(** [for x in l: body x] *)
Fixpoint for_each {A} (l : list A) (body : A → M unit) : M unit :=
  match l with
  | [] => ret tt
  | x :: rest => body x ;; for_each rest body
  end.

(** [d[k]] *)
Definition index {V} (d : gmap string V) (k : string) : M V :=
  match d !! k with
  | Some v => ret v
  | None => raise KeyError
  end.

(** ** HTTP routes *)

Definition msg_response (text : string) : json := JObj [("msg", JStr text)].

Definition avatar_json (a : option string) : json :=
  match a with Some p => JStr p | None => JNull end.

(** [POST /register] *)
Definition register (nickname pw : string) : M json :=
  let nick := strip nickname in
  if bool_decide (nick = "") || bool_decide (pw = "") then
    raise (HTTPException 400 "Nickname and password required")
  else
    users ← gets USERS;
    if bool_decide (is_Some (users !! nick)) then
      raise (HTTPException 400 "User already exists")
    else
      modify (set_USERS <[nick := User pw None]>) ;;
      modify (set_MESSAGES <[nick := []]>) ;;
      ret (msg_response "Registered").

(** [POST /login]; [token] is the value [uuid.uuid4()] produced. *)
Definition login (nickname pw token : string) : M json :=
  let nick := strip nickname in
  users ← gets USERS;
  match users !! nick with
  | None => raise (HTTPException 400 "Invalid credentials")
  | Some u =>
      if bool_decide (password u ≠ pw) then
        raise (HTTPException 400 "Invalid credentials")
      else
        modify (set_TOKENS <[token := nick]>) ;;
        ret (JObj [("nickname", JStr nick); ("token", JStr token);
                   ("avatar", avatar_json (avatar u))])
  end.

(** The rewrite of one value of [TOKENS] by a rename. *)
Definition repoint (old_nick new_nick : string) (n : string) : string :=
  if decide (n = old_nick) then new_nick else n.

(** [POST /change_nick] *)
Definition change_nick (old_nick new_nick pw : string) : M json :=
  users ← gets USERS;
  match users !! old_nick with
  | None => raise (HTTPException 400 "Invalid credentials")
  | Some u =>
      if bool_decide (password u ≠ pw) then
        raise (HTTPException 400 "Invalid credentials")
      else if bool_decide (is_Some (users !! new_nick)) then
        raise (HTTPException 400 "New nick already exists")
      else
        (* USERS[new_nick] = USERS.pop(old_nick) *)
        modify (set_USERS (λ m, <[new_nick := u]> (delete old_nick m))) ;;
        (* MESSAGES[new_nick] = MESSAGES.pop(old_nick) *)
        queues ← gets MESSAGES;
        q ← index queues old_nick;
        modify (set_MESSAGES (λ m, <[new_nick := q]> (delete old_nick m))) ;;
        (* for t, n in TOKENS.items(): if n == old_nick: TOKENS[t] = new_nick *)
        modify (set_TOKENS (fmap (repoint old_nick new_nick))) ;;
        (* if old_nick in CLIENTS: CLIENTS[new_nick] = CLIENTS.pop(old_nick) *)
        clients ← gets CLIENTS;
        match clients !! old_nick with
        | Some c =>
            modify (set_CLIENTS (λ m, <[new_nick := c]> (delete old_nick m))) ;;
            ret (msg_response "Nick changed")
        | None => ret (msg_response "Nick changed")
        end
  end.

(** [POST /upload_avatar]; [file] is [None] when no file came with the form,
    else the extension [os.path.splitext(file.filename)[1]].  [disk] is what
    lines 92-93 meet (opening the path under [avatars/], reading the upload,
    writing it): [None] when they go through, [Some e] when one of them
    raises [e], which happens before [USERS] is looked at. *)
Definition upload_avatar (nick : string) (file : option string)
    (disk : option exn) : M json :=
  match file with
  | None => raise (HTTPException 400 "No file")
  | Some e =>
      let ext := if bool_decide (e = "") then ".png" else e in
      let url := "/avatar/" +:+ nick +:+ ext in
      match disk with
      | Some err => raise err
      | None =>
          users ← gets USERS;
          u ← index users nick;
          modify (set_USERS <[nick := User (password u) (Some url)]>) ;;
          ret (JObj [("avatar_url", JStr url)])
      end
  end.

(** ** The websocket route *)

(** [{"type": "msg", "from": nick, "to": to, "text": text}] *)
Definition chat_msg (nick : string) (to text : json) : json :=
  JObj [("type", JStr "msg"); ("from", JStr nick); ("to", to); ("text", text)].

(** [{"type": "typing", "from": nick}] *)
Definition typing_msg (nick : string) : json :=
  JObj [("type", JStr "typing"); ("from", JStr nick)].

(** A JSON value used as a dictionary key: a [list] or a [dict] is
    unhashable; [None], a [bool] and a number hash but equal no nick. *)
Definition as_key (k : json) : M (option string) :=
  match k with
  | JStr s => mret (Some s)
  | JArr _ | JObj _ => raise TypeError
  | _ => mret None
  end.

(** [k in d] *)
Definition contains {V} (d : store → gmap string V) (k : json) : M bool :=
  key ← as_key k;
  m ← gets d;
  mret (bool_decide (is_Some (key ≫= (m !!.)))).

(** [d[k]] *)
Definition py_index {V} (d : store → gmap string V) (k : json) : M V :=
  key ← as_key k;
  m ← gets d;
  match key ≫= (m !!.) with
  | Some v => mret v
  | None => raise KeyError
  end.

(** [MESSAGES[to].append(msg)] *)
Definition append_message (to msg : json) : M unit :=
  key ← as_key to;
  queues ← gets MESSAGES;
  match key, key ≫= (queues !!.) with
  | Some r, Some q => modify (set_MESSAGES <[r := q ++ [msg]]>)
  | _, _ => raise KeyError
  end.

(** How far a handler got: still inside [while True], waiting for the next
    frame, or returned. *)
Inductive status := Waiting | Returned.

Section websocket.
Variable net : transport.

(** [await ws.send_json(frame)] *)
Definition send_json (ws : nat) (frame : json) : M unit :=
  match net ws with
  | None => emit (Sent ws frame)
  | Some e => raise e
  end.

(** [await websocket.receive_json()] *)
Definition receive_json (ws : nat) (i : inbound) : M json :=
  match i with
  | Frame d => emit (Received ws d);; mret d
  | BadFrame => raise JSONDecodeError
  | BinaryFrame => raise KeyError
  | Disconnect => raise WebSocketDisconnect
  end.

(** Lines 120-122: send what is queued for [nick], then clear the queue. *)
Definition drain (nick : string) (ws : nat) : M unit :=
  queues ← gets MESSAGES;
  for_each (default [] (queues !! nick)) (send_json ws);;
  modify (set_MESSAGES <[nick := []]>).

(** Lines 107-122: the handshake up to the loop.  The result is the nick
    the loop runs under, [None] when the handler returned before it. *)
Definition activate (ws : nat) (token : option string) : M (option string) :=
  emit (Accepted ws);;
  tokens ← gets TOKENS;
  match token ≫= (tokens !!.) with
  | None => emit (Closed ws);; mret None
  | Some nick =>
      if bool_decide (nick = "") then emit (Closed ws);; mret None
      else
        modify (set_CLIENTS <[nick := ws]>);;
        drain nick ws;;
        mret (Some nick)
  end.

(** Lines 126-143: one pass through the body of [while True]. *)
Definition loop_body (nick : string) (ws : nat) (i : inbound) : M unit :=
  data ← receive_json ws i;
  typ ← lift (py_get data "type");
  if str_eqb typ "msg" then
    to ← lift (py_get data "to");
    text ← lift (py_get data "text");
    let msg := chat_msg nick to text in
    online ← contains CLIENTS to;
    if online : bool then
      c ← py_index CLIENTS to;
      send_json c msg
    else
      append_message to msg
  else if str_eqb typ "typing" then
    to ← lift (py_get data "to");
    online ← contains CLIENTS to;
    if online : bool then
      c ← py_index CLIENTS to;
      send_json c (typing_msg nick)
    else mret tt
  else mret tt.

(** [while True: ...] over the frames that arrive; when they run out the
    handler is suspended in [receive_json]. *)
Fixpoint while_true (nick : string) (ws : nat) (ins : list inbound) : M status :=
  match ins with
  | [] => mret Waiting
  | i :: rest => loop_body nick ws i;; while_true nick ws rest
  end.

(** [except WebSocketDisconnect: CLIENTS.pop(nick, None)] *)
Definition on_disconnect (nick : string) : M status :=
  modify (set_CLIENTS (delete nick));; mret Returned.

(** Lines 124-147. *)
Definition serve (nick : string) (ws : nat) (ins : list inbound) : M status :=
  try_except (while_true nick ws ins) WebSocketDisconnect (on_disconnect nick).

(** [websocket_endpoint] run against the frames [ins]. *)
Definition websocket_endpoint (ws : nat) (token : option string)
    (ins : list inbound) : M status :=
  r ← activate ws token;
  match r with
  | None => mret Returned
  | Some nick => serve nick ws ins
  end.
End websocket.

(** ** The whole server: routes and live handlers interleaved *)

(** Handlers run on one event loop and give way to each other at an
    [await].  A step of the system is what one handler does between two
    such points.  An HTTP route touches the stores in one piece.  A
    websocket handler has three kinds of suspension: in [receive_json]
    (it is then in [handlers]), in the write of one queued message during
    the handshake (lines 120-121), and in a write of the loop that raises
    [WebSocketDisconnect], before its [except] clause runs (the latter two
    are in [suspended]).  Between steps the transports may change. *)

(** The list object the [for] of line 120 walks through.  It is either the
    one [MESSAGES] holds under the key [k] at this moment, so that appends
    to that queue are seen, or one that [MESSAGES] holds no more, with the
    items it keeps. *)
Inductive backlog :=
| Attached (k : string)
| Detached (items : list json).

Inductive suspension :=
| InDrain (nick : string) (L : backlog) (next : nat)
    (* in the write of item [next - 1] of [L]; [next] items are done *)
| InExcept (nick : string).
    (* a write of the loop raised; [CLIENTS.pop(nick, None)] is still to run *)

Record system := System {
  shared : store;
  handlers : gmap nat string;   (* websocket -> the handler's local [nick] *)
  suspended : gmap nat suspension;
  wire : list event;
  next_ws : nat
}.

Definition boot : system := System empty_store ∅ ∅ [] 0.

Inductive request :=
| Register (nickname pw : string)
| Login (nickname pw token : string)
| ChangeNick (old_nick new_nick pw : string)
| UploadAvatar (nick : string) (file : option string) (disk : option exn)
| Connect (token : option string)
| Resume (ws : nat)
| Deliver (ws : nat) (i : inbound).

Definition backlog_items (s : store) (L : backlog) : list json :=
  match L with
  | Attached k => default [] (MESSAGES s !! k)
  | Detached items => items
  end.

(** [MESSAGES.get(nick, [])] as a list object. *)
Definition queue_object (s : store) (nick : string) : backlog :=
  match MESSAGES s !! nick with
  | Some _ => Attached nick
  | None => Detached []
  end.

(** [MESSAGES[k] = ...]: the key gets another list object; a handler that
    walks through the present one keeps it, as it is in [s]. *)
Definition detach (s : store) (k : string) (h : suspension) : suspension :=
  match h with
  | InDrain nick (Attached k') next =>
      if decide (k' = k)
      then InDrain nick (Detached (default [] (MESSAGES s !! k))) next
      else h
  | _ => h
  end.

(** [MESSAGES[new_nick] = MESSAGES.pop(old_nick)]: the list object moves. *)
Definition reattach (old_nick new_nick : string) (h : suspension) : suspension :=
  match h with
  | InDrain nick (Attached k) next =>
      if decide (k = old_nick) then InDrain nick (Attached new_nick) next else h
  | _ => h
  end.

(** Lines 107-116: accept, resolve the token, bind. *)
Definition bind_presence (ws : nat) (token : option string) : M (option string) :=
  emit (Accepted ws);;
  tokens ← gets TOKENS;
  match token ≫= (tokens !!.) with
  | None => emit (Closed ws);; mret None
  | Some nick =>
      if bool_decide (nick = "") then emit (Closed ws);; mret None
      else modify (set_CLIENTS <[nick := ws]>);; mret (Some nick)
  end.

(** One turn of the [for] of lines 120-121 when [next] items are done: the
    write of the next item, or line 122 when there is none.  The result
    tells whether the handler is suspended in a write again. *)
Definition drain_turn (net : transport) (nick : string) (ws : nat)
    (items : list json) (next : nat) : M bool :=
  match items !! next with
  | Some m => send_json net ws m;; mret true
  | None => modify (set_MESSAGES <[nick := []]>);; mret false
  end.

Definition http {A} (m : M A) (sys : system) : system :=
  match m (shared sys) with
  | (s, t, _) =>
      System s (handlers sys) (suspended sys) (wire sys ++ t) (next_ws sys)
  end.

(** The handler of [ws] takes its next turn of the drain. *)
Definition turn (net : transport) (ws : nat) (nick : string) (L : backlog)
    (next : nat) (sys : system) : system :=
  let s := shared sys in
  match drain_turn net nick ws (backlog_items s L) next s with
  | (s', t, inr true) =>
      System s' (handlers sys) (<[ws := InDrain nick L (S next)]> (suspended sys))
             (wire sys ++ t) (next_ws sys)
  | (s', t, inr false) =>
      System s' (<[ws := nick]> (handlers sys))
             (detach s nick <$> delete ws (suspended sys))
             (wire sys ++ t) (next_ws sys)
  | (s', t, inl _) =>
      System s' (handlers sys) (delete ws (suspended sys))
             (wire sys ++ t) (next_ws sys)
  end.

(** A [WebSocketDisconnect] out of the loop body that a write raised, not
    [receive_json]: the handler was suspended in that write. *)
Definition raised_by_write (i : inbound) (r : exn + unit) : bool :=
  match i, r with
  | Frame _, inl e => bool_decide (e = WebSocketDisconnect)
  | _, _ => false
  end.

Definition step (net : transport) (r : request) (sys : system) : system :=
  match r with
  | Register n p =>
      match register n p (shared sys) with
      | (s, t, inr _) =>
          System s (handlers sys)
                 (detach (shared sys) (strip n) <$> suspended sys)
                 (wire sys ++ t) (next_ws sys)
      | (s, t, inl _) =>
          System s (handlers sys) (suspended sys) (wire sys ++ t) (next_ws sys)
      end
  | Login n p t => http (login n p t) sys
  | ChangeNick o n p =>
      match change_nick o n p (shared sys) with
      | (s, t, inr _) =>
          System s (handlers sys)
                 (reattach o n <$> (detach (shared sys) n <$> suspended sys))
                 (wire sys ++ t) (next_ws sys)
      | (s, t, inl _) =>
          System s (handlers sys) (suspended sys) (wire sys ++ t) (next_ws sys)
      end
  | UploadAvatar n f d => http (upload_avatar n f d) sys
  | Connect token =>
      let ws := next_ws sys in
      match bind_presence ws token (shared sys) with
      | (s, t, inr (Some nick)) =>
          turn net ws nick (queue_object s nick) 0
            (System s (handlers sys) (suspended sys) (wire sys ++ t) (S ws))
      | (s, t, _) =>
          System s (handlers sys) (suspended sys) (wire sys ++ t) (S ws)
      end
  | Resume ws =>
      match suspended sys !! ws with
      | Some (InDrain nick L next) => turn net ws nick L next sys
      | Some (InExcept nick) =>
          System (set_CLIENTS (delete nick) (shared sys)) (handlers sys)
                 (delete ws (suspended sys)) (wire sys) (next_ws sys)
      | None => sys
      end
  | Deliver ws i =>
      match handlers sys !! ws with
      | None => sys
      | Some nick =>
          match loop_body net nick ws i (shared sys) with
          | (s1, t1, r1) =>
              if raised_by_write i r1 then
                System s1 (delete ws (handlers sys))
                       (<[ws := InExcept nick]> (suspended sys))
                       (wire sys ++ t1) (next_ws sys)
              else
                match serve net nick ws [i] (shared sys) with
                | (s, t, inr Waiting) =>
                    System s (handlers sys) (suspended sys)
                           (wire sys ++ t) (next_ws sys)
                | (s, t, _) =>
                    System s (delete ws (handlers sys)) (suspended sys)
                           (wire sys ++ t) (next_ws sys)
                end
          end
      end
  end.

Inductive reachable : system → Prop :=
| reachable_boot : reachable boot
| reachable_step net r sys : reachable sys → reachable (step net r sys).

Definition run (net : transport) (rs : list request) (sys : system) : system :=
  foldl (λ acc r, step net r acc) sys rs.

(** * Vocabulary of the statements *)

(** ** Effects of a step on the stores *)

(** The store after the body, and what it wrote: nothing, one frame to the
    websocket bound to the addressee, or one chat message appended to the
    queue of an addressee with no websocket bound. *)
Inductive body_effect (nick : string) (s : store) : store → list event → Prop :=
| effect_none : body_effect nick s s []
| effect_sent k c m : CLIENTS s !! k = Some c → body_effect nick s s [Sent c m]
| effect_queued k q text :
    CLIENTS s !! k = None → MESSAGES s !! k = Some q →
    body_effect nick s
      (set_MESSAGES <[k := q ++ [chat_msg nick (JStr k) text]]> s) [].

(** Every way one step of the server changes the stores.  A rename is one
    change; [mut_rename_halfway] is the rename cut short by the [KeyError]
    of [MESSAGES.pop] after [USERS] was already moved. *)
Inductive mutation (s : store) : store → Prop :=
| mut_register nick pw :
    pw ≠ "" → USERS s !! nick = None →
    mutation s (set_MESSAGES <[nick := []]>
                  (set_USERS <[nick := User pw None]> s))
| mut_login nick tok :
    is_Some (USERS s !! nick) → mutation s (set_TOKENS <[tok := nick]> s)
| mut_rename_halfway old_nick new_nick u :
    USERS s !! old_nick = Some u → USERS s !! new_nick = None →
    MESSAGES s !! old_nick = None →
    mutation s (set_USERS (λ m, <[new_nick := u]> (delete old_nick m)) s)
| mut_rename old_nick new_nick u q :
    USERS s !! old_nick = Some u → USERS s !! new_nick = None →
    MESSAGES s !! old_nick = Some q →
    mutation s
      (Store (<[new_nick := u]> (delete old_nick (USERS s)))
             (repoint old_nick new_nick <$> TOKENS s)
             (match CLIENTS s !! old_nick with
              | Some c => <[new_nick := c]> (delete old_nick (CLIENTS s))
              | None => CLIENTS s
              end)
             (<[new_nick := q]> (delete old_nick (MESSAGES s))))
| mut_avatar nick u url :
    USERS s !! nick = Some u →
    mutation s (set_USERS <[nick := User (password u) (Some url)]> s)
| mut_bind tok nick ws :
    TOKENS s !! tok = Some nick → mutation s (set_CLIENTS <[nick := ws]> s)
| mut_clear nick : mutation s (set_MESSAGES <[nick := []]> s)
| mut_queue k q nick text :
    MESSAGES s !! k = Some q →
    mutation s (set_MESSAGES <[k := q ++ [chat_msg nick (JStr k) text]]> s)
| mut_unbind nick : mutation s (set_CLIENTS (delete nick) s).

(** ** Invariants *)

(** A queued entry is a chat message when its ["type"] is ["msg"]. *)
Definition is_chat (m : json) : Prop := py_get m "type" = inr (JStr "msg").

Definition queues_hold_chat (s : store) : Prop :=
  ∀ k q, MESSAGES s !! k = Some q → Forall is_chat q.

(** Every registered nick has a queue; presence entries and tokens exist
    for registered nicks only.  (A queue can exist for a nick that is not
    registered: line 122 runs under the nick the handler started with.) *)
Record tied_to_users (s : store) : Prop := {
  user_has_queue : ∀ k, is_Some (USERS s !! k) → is_Some (MESSAGES s !! k);
  client_is_user : ∀ k, is_Some (CLIENTS s !! k) → is_Some (USERS s !! k);
  token_of_user : ∀ t k, TOKENS s !! t = Some k → is_Some (USERS s !! k)
}.

(** ** Chat frames sent to an offline nick *)

(** A frame the loop treats as a chat message for [R]. *)
Definition chat_to (R : string) (data : json) : Prop :=
  py_get data "type" = inr (JStr "msg") ∧ py_get data "to" = inr (JStr R).

(** [data.get("text")] of a [dict]. *)
Definition text_of (data : json) : json :=
  match py_get data "text" with inr t => t | inl _ => JNull end.


Definition deliver_chat (send : nat * string * json) : request :=
  Deliver send.1.1 (Frame send.2).


(** ** Concrete states *)

(** Every transport works. *)
Definition all_up : transport := λ _, None.

(** The transport of websocket 1 is broken; [e] is what a write raises. *)
Definition ws1_down (e : exn) : transport :=
  λ ws, if decide (ws = 1) then Some e else None.

Definition chat_frame (to : string) (text : json) : json :=
  JObj [("type", JStr "msg"); ("to", JStr to); ("text", text)].

(** alice and bob registered and logged in, alice connected on websocket 0. *)
Definition alice_online : system :=
  run all_up [Register "alice" "pw"; Register "bob" "pw2";
              Login "alice" "pw" "t1"; Login "bob" "pw2" "t2";
              Connect (Some "t1")] boot.

(** ... and bob connected on websocket 1. *)
Definition both_online : system := step all_up (Connect (Some "t2")) alice_online.

(** bob connected twice: websocket 1 has superseded websocket 0. *)
Definition superseded : system :=
  run all_up [Register "bob" "pw2"; Login "bob" "pw2" "t2";
              Connect (Some "t2"); Connect (Some "t2")] boot.

Definition two_sends : list (nat * string * json) :=
  [(0, "alice", chat_frame "bob" (JStr "hi"));
   (0, "alice", chat_frame "bob" (JStr "there"))].

(** bob connects with one message queued and is renamed to rob while the
    handshake is suspended in the write of that message; the handshake then
    ends with line 122 under the nick it started with. *)
Definition stale_queue : system :=
  run all_up [Deliver 0 (Frame (chat_frame "bob" (JStr "hi")));
              Connect (Some "t2"); ChangeNick "bob" "rob" "pw2"; Resume 1]
      alice_online.

(** bob registered, logged in and bound to websocket 7, one message queued;
    and the same after the rename of bob to rob. *)
Definition rename_before : store :=
  Store {["bob" := User "pw" None]} {["t1" := "bob"]} {["bob" := 7]}
        {["bob" := [chat_msg "alice" (JStr "bob") (JStr "hi")]]}.

Definition rename_after : store :=
  Store {["rob" := User "pw" None]} {["t1" := "rob"]} {["rob" := 7]}
        {["rob" := [chat_msg "alice" (JStr "bob") (JStr "hi")]]}.

Definition two_queued : store :=
  Store ∅ ∅ ∅
    {["bob" := [chat_msg "alice" (JStr "bob") (JStr "hi");
                chat_msg "alice" (JStr "bob") (JStr "there")]]}.

(** ** More vocabulary: passwords, keys, senders *)

(** Every stored password is non-empty. *)
Definition passwords_set (s : store) : Prop :=
  ∀ k u, USERS s !! k = Some u → password u ≠ "".

(** A [list] or a [dict]: a value that cannot be a dictionary key. *)
Definition unhashable (k : json) : Prop :=
  match k with JArr _ | JObj _ => True | _ => False end.

(** [None], a [bool] or a number: a key that equals no nick. *)
Definition no_nick (k : json) : Prop :=
  match k with JNull | JBool _ | JNum _ => True | _ => False end.

(** The frame [m] names [nick] as its sender. *)
Definition stamped (nick : string) (m : json) : Prop :=
  py_get m "from" = inr (JStr nick).

(** * Properties *)

(** ** Running the monad *)

Ltac run_M :=
  unfold mbind, mret, M_bind, M_ret, bind, ret, raise, gets, modify, emit,
    lift, try_except in *.

Lemma bind_inr {A B} (m : M A) (f : A → M B) s s1 t1 a :
  m s = (s1, t1, inr a) →
  (m ≫= f) s = (let '(s2, t2, r) := f a s1 in (s2, t1 ++ t2, r)).
Proof. intros E. run_M. now rewrite E. Qed.

(** The [try] around the whole loop is a [try] around each pass: a handler
    may be run one received frame at a time. *)
Lemma serve_cons net nick ws i rest s :
  serve net nick ws (i :: rest) s =
    match serve net nick ws [i] s with
    | (s1, t1, inr Waiting) =>
        let '(s2, t2, r) := serve net nick ws rest s1 in (s2, t1 ++ t2, r)
    | other => other
    end.
Proof.
  unfold serve. simpl. run_M.
  destruct (loop_body net nick ws i s) as [[s1 t1] [e|[]]]; simpl.
  - now case_decide.
  - rewrite app_nil_r.
    destruct (while_true net nick ws rest s1) as [[s2 t2] [e|st]]; simpl;
      [|reflexivity].
    case_decide; [|reflexivity]. now rewrite app_assoc.
Qed.

(** ** [strip] *)

Lemma lstrip_split s :
  ∃ pre, s = pre +:+ lstrip s ∧ all_space pre = true.
Proof.
  induction s as [|c s IH]; simpl.
  - now exists "".
  - destruct (isspace c) eqn:Ec.
    + destruct IH as (pre & E & Hpre).
      exists (String c pre); simpl. rewrite Ec, Hpre. split; [|easy].
      change (String c s = String c (pre +:+ lstrip s)). now f_equal.
    + now exists "".
Qed.

Lemma lstrip_first s c : first_char (lstrip s) = Some c → isspace c = false.
Proof.
  induction s as [|a s IH]; simpl; [easy|].
  destruct (isspace a) eqn:Ea; [exact IH|].
  simpl. intros [= <-]. exact Ea.
Qed.

Lemma rstrip_split s :
  ∃ post, s = rstrip s +:+ post ∧ all_space post = true.
Proof.
  induction s as [|c s IH]; simpl.
  - now exists "".
  - destruct IH as (post & E & Hpost).
    destruct (rstrip s) as [|b r] eqn:Er.
    + destruct (isspace c) eqn:Ec.
      * exists (String c s); simpl. rewrite Ec.
        change ("" +:+ post) with post in E. subst post. now rewrite Hpost.
      * exists post. change (String c s = String c ("" +:+ post) ∧ all_space post = true).
        now rewrite <- E.
    + exists post. change (String c s = String c (String b r +:+ post) ∧ all_space post = true).
      now rewrite <- E.
Qed.

Lemma rstrip_last s c : last_char (rstrip s) = Some c → isspace c = false.
Proof.
  induction s as [|a s IH]; simpl; [easy|].
  destruct (rstrip s) as [|b r] eqn:Er.
  - destruct (isspace a) eqn:Ea; simpl; [easy|]. now intros [= <-].
  - simpl. exact IH.
Qed.

Lemma rstrip_first s c :
  first_char (rstrip s) = Some c → first_char s = Some c.
Proof.
  destruct s as [|a s]; simpl; [easy|].
  destruct (rstrip s); [destruct (isspace a)|]; simpl; easy.
Qed.

(** [strip s] is [s] without a whitespace prefix and a whitespace suffix,
    and it neither starts nor ends with whitespace. *)
Lemma strip_spec s :
  (∃ pre post, s = pre +:+ strip s +:+ post
               ∧ all_space pre = true ∧ all_space post = true)
  ∧ (∀ c, first_char (strip s) = Some c → isspace c = false)
  ∧ (∀ c, last_char (strip s) = Some c → isspace c = false).
Proof.
  unfold strip. split; [|split].
  - destruct (lstrip_split s) as (pre & E1 & H1).
    destruct (rstrip_split (lstrip s)) as (post & E2 & H2).
    exists pre, post. split; [|easy]. now rewrite <- E2.
  - intros c Hc. apply rstrip_first in Hc. now apply lstrip_first in Hc.
  - apply rstrip_last.
Qed.

(** ** Registration *)

(** C10. [register] stores the nickname stripped of leading and trailing
    whitespace as the key of both [USERS] and an empty [MESSAGES] queue; it
    answers 400 and leaves the stores as they were when the stripped
    nickname is empty, the password is empty or the stripped nickname is
    taken, and it succeeds in every other case. *)
Theorem register_strips_and_validates (nickname pw : string) (s : store) :
  let nick := strip nickname in
  ((∃ pre post, nickname = pre +:+ nick +:+ post
                ∧ all_space pre = true ∧ all_space post = true)
   ∧ (∀ c, first_char nick = Some c → isspace c = false)
   ∧ (∀ c, last_char nick = Some c → isspace c = false))
  ∧ (nick = "" ∨ pw = "" ∨ is_Some (USERS s !! nick) →
     ∃ detail, register nickname pw s = (s, [], inl (HTTPException 400 detail)))
  ∧ (nick ≠ "" → pw ≠ "" → USERS s !! nick = None →
     register nickname pw s =
       (Store (<[nick := User pw None]> (USERS s)) (TOKENS s) (CLIENTS s)
              (<[nick := []]> (MESSAGES s)),
        [], inr (msg_response "Registered"))).
Proof.
  intros nick. split; [apply strip_spec|]. unfold register. fold nick. split.
  - intros H.
    destruct (decide (nick = "")) as [E|N].
    { rewrite (bool_decide_eq_true_2 _ E). simpl. now eexists. }
    destruct (decide (pw = "")) as [E|N'].
    { rewrite (bool_decide_eq_true_2 _ E), orb_true_r. now eexists. }
    destruct H as [H|[H|H]]; [easy..|].
    rewrite (bool_decide_eq_false_2 _ N), (bool_decide_eq_false_2 _ N').
    run_M. simpl. rewrite (bool_decide_eq_true_2 _ H). now eexists.
  - intros N N' Hfree.
    rewrite (bool_decide_eq_false_2 _ N), (bool_decide_eq_false_2 _ N').
    run_M. simpl. rewrite bool_decide_eq_false_2; [easy|].
    rewrite Hfree. now intros [? ?].
Qed.

Lemma register_strips_and_validates_witness :
  register "  alice " "pw" empty_store =
    (Store {["alice" := User "pw" None]} ∅ ∅ {["alice" := []]},
     [], inr (msg_response "Registered"))
  ∧ ∃ detail, register " " "pw" empty_store
              = (empty_store, [], inl (HTTPException 400 detail)).
Proof.
  split.
  - apply (register_strips_and_validates "  alice " "pw" empty_store);
      [discriminate | discriminate | reflexivity].
  - apply (register_strips_and_validates " " "pw" empty_store).
    left. reflexivity.
Defined.

(** ** Rename *)

(** C9. A [change_nick] with the password of [old_nick] and a free
    [new_nick] succeeds (when [old_nick] has its queue); and a [change_nick]
    that succeeds moves the queue of [old_nick] to [new_nick], moves the
    [CLIENTS] entry when [old_nick] has one, repoints every token of
    [old_nick], and leaves no key or token value [old_nick] in any of the
    four stores. *)
Theorem change_nick_moves_state (old_nick new_nick pw : string) (s : store) :
  (∀ u q, USERS s !! old_nick = Some u → password u = pw →
          USERS s !! new_nick = None → MESSAGES s !! old_nick = Some q →
          ∃ s', change_nick old_nick new_nick pw s
                = (s', [], inr (msg_response "Nick changed")))
  ∧ ∀ s' t resp,
      change_nick old_nick new_nick pw s = (s', t, inr resp) →
      old_nick ≠ new_nick
      ∧ (USERS s' !! new_nick = USERS s !! old_nick
         ∧ USERS s' !! old_nick = None)
      ∧ (is_Some (MESSAGES s !! old_nick)
         ∧ MESSAGES s' !! new_nick = MESSAGES s !! old_nick
         ∧ MESSAGES s' !! old_nick = None)
      ∧ ((∀ c, CLIENTS s !! old_nick = Some c → CLIENTS s' !! new_nick = Some c)
         ∧ CLIENTS s' !! old_nick = None)
      ∧ ((∀ tok, TOKENS s !! tok = Some old_nick →
            TOKENS s' !! tok = Some new_nick)
         ∧ (∀ tok, TOKENS s' !! tok ≠ Some old_nick)).
Proof.
  split.
  { intros u q Hu Hp Hn Hq. unfold change_nick, index. run_M. simpl.
    rewrite Hu. rewrite bool_decide_eq_false_2 by (intros N; now apply N).
    rewrite bool_decide_eq_false_2 by (rewrite Hn; now intros [? ?]).
    simpl. rewrite Hq. simpl.
    destruct (CLIENTS s !! old_nick); simpl; eexists; reflexivity. }
  intros s' t resp.
  unfold change_nick, index. run_M. simpl.
  destruct (USERS s !! old_nick) as [u|] eqn:Eu; [|discriminate].
  case_bool_decide; [discriminate|].
  case_bool_decide as Hnew; [discriminate|].
  assert (old_nick ≠ new_nick) as Hne.
  { intros ->. apply Hnew. now rewrite Eu. }
  simpl. destruct (MESSAGES s !! old_nick) as [q|] eqn:Eq; [|discriminate].
  simpl.
  assert (∀ m : gmap string string,
    (∀ tok, m !! tok = Some old_nick →
       (repoint old_nick new_nick <$> m) !! tok = Some new_nick)
    ∧ (∀ tok, (repoint old_nick new_nick <$> m) !! tok ≠ Some old_nick))
    as Htok.
  { intros m. unfold repoint. split; intros tok; rewrite lookup_fmap.
    - intros ->. simpl. now rewrite decide_True.
    - destruct (m !! tok) as [n|]; simpl; [|easy].
      destruct (decide (n = old_nick)); congruence. }
  destruct (CLIENTS s !! old_nick) as [c|] eqn:Ec; simpl;
    intros [= <- <- <-]; simpl;
    rewrite ?lookup_insert_eq, ?(lookup_insert_ne _ new_nick old_nick),
      ?lookup_delete_eq by congruence;
    repeat split; try easy; try apply Htok; eauto.
Qed.

Lemma change_nick_moves_state_witness :
  ∃ s', change_nick "bob" "rob" "pw" rename_before
        = (s', [], inr (msg_response "Nick changed"))
        ∧ MESSAGES s' !! "rob" = MESSAGES rename_before !! "bob"
        ∧ CLIENTS s' !! "rob" = Some 7
        ∧ TOKENS s' !! "t1" = Some "rob".
Proof.
  destruct (change_nick_moves_state "bob" "rob" "pw" rename_before)
    as [Hok Hmoves].
  destruct (Hok (User "pw" None)
              [chat_msg "alice" (JStr "bob") (JStr "hi")])
    as [s' E]; [reflexivity | reflexivity | reflexivity | reflexivity |].
  destruct (Hmoves s' [] _ E) as (_ & _ & (_ & Hq & _) & (Hc & _) & (Ht & _)).
  exists s'. split; [exact E|]. split; [exact Hq|].
  split; [apply Hc | apply Ht]; reflexivity.
Defined.

(** ** Draining the offline queue *)

Lemma for_each_send_ok net ws (l : list json) s :
  net ws = None →
  for_each l (send_json net ws) s = (s, Sent ws <$> l, inr tt).
Proof.
  intros Hok. induction l as [|m l IH]; simpl; [reflexivity|].
  run_M. unfold send_json at 1. rewrite Hok. simpl. now rewrite IH.
Qed.

Lemma drain_ok net nick ws s :
  net ws = None →
  drain net nick ws s =
    (set_MESSAGES <[nick := []]> s,
     Sent ws <$> default [] (MESSAGES s !! nick), inr tt).
Proof.
  intros Hok. unfold drain. run_M.
  rewrite (for_each_send_ok _ _ _ _ Hok). simpl. now rewrite app_nil_r.
Qed.

(** C7. Draining the queue of [nick] on a working transport sends the whole
    queue, in order; a second drain right after it sends nothing; and a
    drain of a nick with no queue or an empty one sends nothing. *)
Theorem drain_full_then_empty (net : transport) (nick : string)
    (ws1 ws2 : nat) (s : store) :
  net ws1 = None → net ws2 = None →
  ∃ s1,
    drain net nick ws1 s =
      (s1, Sent ws1 <$> default [] (MESSAGES s !! nick), inr tt)
    ∧ drain net nick ws2 s1 = (s1, [], inr tt)
    ∧ (MESSAGES s !! nick = None ∨ MESSAGES s !! nick = Some [] →
       drain net nick ws1 s = (s1, [], inr tt)).
Proof.
  intros H1 H2. exists (set_MESSAGES <[nick := []]> s).
  rewrite !drain_ok by assumption. split; [reflexivity|]. split.
  - unfold set_MESSAGES; simpl. rewrite lookup_insert_eq. simpl.
    now rewrite insert_insert_eq.
  - now intros [-> | ->].
Qed.

Lemma drain_full_then_empty_witness :
  ∃ s1,
    drain (λ _, None) "bob" 1 two_queued =
      (s1, [Sent 1 (chat_msg "alice" (JStr "bob") (JStr "hi"));
            Sent 1 (chat_msg "alice" (JStr "bob") (JStr "there"))], inr tt)
    ∧ drain (λ _, None) "bob" 2 s1 = (s1, [], inr tt).
Proof.
  destruct (drain_full_then_empty (λ _, None) "bob" 1 2 two_queued
              eq_refl eq_refl) as (s1 & E1 & E2 & _).
  exists s1. split; [exact E1 | exact E2].
Defined.

(** ** The handshake *)

(** C6. When the token is absent or is no key of [TOKENS], the handler
    accepts and closes the websocket and returns: nothing is received or
    sent, and the stores (presence and queues among them) are untouched,
    whatever frames the client had ready. *)
Theorem unknown_token_fails_closed (net : transport) (ws : nat)
    (token : option string) (ins : list inbound) (s : store) :
  token ≫= (TOKENS s !!.) = None →
  websocket_endpoint net ws token ins s
  = (s, [Accepted ws; Closed ws], inr Returned).
Proof.
  intros Hno. unfold websocket_endpoint, activate. run_M. simpl.
  now rewrite Hno.
Qed.

Lemma unknown_token_fails_closed_witness :
  websocket_endpoint (λ _, None) 3 None [Frame JNull] rename_before
  = (rename_before, [Accepted 3; Closed 3], inr Returned)
  ∧ websocket_endpoint (λ _, None) 3 (Some "t2") [Frame JNull] rename_before
    = (rename_before, [Accepted 3; Closed 3], inr Returned).
Proof.
  split.
  - apply (unknown_token_fails_closed (λ _, None) 3 None). reflexivity.
  - apply (unknown_token_fails_closed (λ _, None) 3 (Some "t2")). reflexivity.
Defined.

(** ** What one pass of the loop can do *)

Lemma loop_body_chat_offline net nick ws data R text q s :
  py_get data "type" = inr (JStr "msg") →
  py_get data "to" = inr (JStr R) →
  py_get data "text" = inr text →
  CLIENTS s !! R = None → MESSAGES s !! R = Some q →
  loop_body net nick ws (Frame data) s
  = (set_MESSAGES <[R := q ++ [chat_msg nick (JStr R) text]]> s,
     [Received ws data], inr tt).
Proof.
  intros Ht Hto Htx Hc Hq. unfold loop_body, receive_json. run_M. simpl.
  rewrite Ht. simpl. rewrite Hto, Htx. simpl.
  unfold contains, append_message, py_index. run_M. simpl.
  rewrite Hc. simpl. rewrite Hq. simpl. reflexivity.
Qed.

Lemma loop_body_effect net nick ws i s s' t r :
  loop_body net nick ws i s = (s', t, r) →
  ∃ t', body_effect nick s s' t'
        ∧ t = match i with Frame d => Received ws d :: t' | _ => t' end.
Proof.
  unfold loop_body, receive_json, contains, append_message, py_index,
    send_json, as_key, py_get, str_eqb.
  run_M. intros H.
  repeat (case_match; simplify_eq/=);
    try (eexists; split; [eapply effect_none | reflexivity]);
    try (eexists; split; [eapply effect_sent; eassumption | reflexivity]).
  eexists; split; [eapply effect_queued; [|eassumption] | reflexivity].
  apply eq_None_not_Some. eapply bool_decide_eq_false_1. eassumption.
Qed.

Lemma serve_one_effect net nick ws i s s' t r :
  serve net nick ws [i] s = (s', t, r) →
  ∃ s1 t', body_effect nick s s1 t'
    ∧ (s' = s1 ∨ s' = set_CLIENTS (delete nick) s1)
    ∧ t = match i with Frame d => Received ws d :: t' | _ => t' end.
Proof.
  unfold serve, on_disconnect. simpl. run_M.
  destruct (loop_body net nick ws i s) as [[s1 t1] r1] eqn:E.
  apply loop_body_effect in E as (t' & He & ->).
  destruct r1 as [e|[]]; simpl.
  - case_decide; simpl; intros [= <- <- <-]; exists s1, t';
      rewrite ?app_nil_r; eauto.
  - intros [= <- <- <-]. exists s1, t'. rewrite ?app_nil_r; eauto.
Qed.

Lemma for_each_send net ws (l : list json) s :
  for_each l (send_json net ws) s =
    match net ws, l with
    | Some e, _ :: _ => (s, [], inl e)
    | _, _ => (s, Sent ws <$> l, inr tt)
    end.
Proof.
  destruct (net ws) as [e|] eqn:E.
  - destruct l; simpl; [reflexivity|]. run_M. unfold send_json. now rewrite E.
  - rewrite for_each_send_ok by assumption. now destruct l.
Qed.

Lemma activate_effect net ws token s s' t r :
  activate net ws token s = (s', t, r) →
  s' = s
  ∨ ∃ tok nick, token = Some tok ∧ TOKENS s !! tok = Some nick ∧ nick ≠ ""
      ∧ (s' = set_CLIENTS <[nick := ws]> s
         ∨ s' = set_MESSAGES <[nick := []]> (set_CLIENTS <[nick := ws]> s)).
Proof.
  unfold activate, drain. run_M. simpl.
  destruct token as [tok|]; simpl; [|intros [= <- <- <-]; now left].
  destruct (TOKENS s !! tok) as [nick|] eqn:Et; simpl;
    [|intros [= <- <- <-]; now left].
  case_bool_decide as Hn; simpl; [intros [= <- <- <-]; now left|].
  rewrite for_each_send.
  destruct (net ws), (default [] (MESSAGES s !! nick)); simpl;
    intros [= <- <- <-]; right; exists tok, nick; eauto 10.
Qed.

(** ** Every way a step changes the stores *)

Lemma register_effect n p s s' t r :
  register n p s = (s', t, r) →
  (s' = s ∧ t = [] ∧ ∃ e, r = inl e)
  ∨ (p ≠ "" ∧ strip n ≠ "" ∧ USERS s !! strip n = None
     ∧ s' = set_MESSAGES <[strip n := []]>
              (set_USERS <[strip n := User p None]> s)
     ∧ t = [] ∧ r = inr (msg_response "Registered")).
Proof.
  unfold register. run_M.
  destruct (decide (strip n = "")) as [E|N].
  { rewrite (bool_decide_eq_true_2 _ E). intros [= <- <- <-]. left. eauto. }
  destruct (decide (p = "")) as [E|N'].
  { rewrite (bool_decide_eq_true_2 _ E), orb_true_r.
    intros [= <- <- <-]. left. eauto. }
  rewrite (bool_decide_eq_false_2 _ N), (bool_decide_eq_false_2 _ N'). simpl.
  case_bool_decide as Hu; simpl; intros [= <- <- <-]; [left; eauto|].
  right. repeat split; try easy. now apply eq_None_not_Some.
Qed.

Lemma change_nick_effect o n p s s' t r :
  change_nick o n p s = (s', t, r) →
  t = []
  ∧ ((s' = s ∧ ∃ e, r = inl e)
     ∨ (∃ u, USERS s !! o = Some u ∧ password u = p ∧ USERS s !! n = None
          ∧ MESSAGES s !! o = None ∧ r = inl KeyError
          ∧ s' = set_USERS (λ m, <[n := u]> (delete o m)) s)
     ∨ (∃ u q, USERS s !! o = Some u ∧ password u = p ∧ USERS s !! n = None
          ∧ MESSAGES s !! o = Some q ∧ r = inr (msg_response "Nick changed")
          ∧ s' = Store (<[n := u]> (delete o (USERS s)))
                   (repoint o n <$> TOKENS s)
                   (match CLIENTS s !! o with
                    | Some c => <[n := c]> (delete o (CLIENTS s))
                    | None => CLIENTS s
                    end)
                   (<[n := q]> (delete o (MESSAGES s))))).
Proof.
  unfold change_nick, index. run_M. simpl.
  destruct (USERS s !! o) as [u|] eqn:Eu; simpl;
    [|intros [= <- <- <-]; split; [easy|]; left; eauto].
  case_bool_decide as Hp; simpl;
    [intros [= <- <- <-]; split; [easy|]; left; eauto|].
  case_bool_decide as Hn; simpl;
    [intros [= <- <- <-]; split; [easy|]; left; eauto|].
  apply eq_None_not_Some in Hn.
  assert (password u = p) as Hp'
    by (destruct (decide (password u = p)); [easy | now destruct Hp]).
  destruct (MESSAGES s !! o) as [q|] eqn:Eq; simpl.
  - destruct (CLIENTS s !! o) as [c|] eqn:Ec; simpl; intros [= <- <- <-];
      (split; [easy|]); right; right; exists u, q; rewrite ?Ec; easy.
  - intros [= <- <- <-]. split; [easy|]. right. left. exists u. easy.
Qed.

Lemma upload_avatar_effect nick f d s s' t r :
  upload_avatar nick f d s = (s', t, r) →
  t = []
  ∧ ((s' = s ∧ ∃ e, r = inl e)
     ∨ (∃ e u, f = Some e ∧ d = None ∧ USERS s !! nick = Some u
          ∧ s' = set_USERS
                   <[nick := User (password u)
                       (Some ("/avatar/" +:+ nick
                              +:+ (if bool_decide (e = "") then ".png" else e)))]> s
          ∧ r = inr (JObj [("avatar_url",
                            JStr ("/avatar/" +:+ nick
                                  +:+ (if bool_decide (e = "")
                                       then ".png" else e)))]))).
Proof.
  unfold upload_avatar, index. run_M.
  destruct f as [e|]; [|intros [= <- <- <-]; split; [easy|]; left; eauto].
  destruct d as [err|]; [intros [= <- <- <-]; split; [easy|]; left; eauto|].
  simpl. destruct (USERS s !! nick) as [u|] eqn:Eu; simpl;
    intros [= <- <- <-]; (split; [easy|]); [right; eauto 10 | left; eauto].
Qed.

Lemma bind_presence_effect ws token s s' t r :
  bind_presence ws token s = (s', t, r) →
  (s' = s ∧ t = [Accepted ws; Closed ws] ∧ r = inr None
   ∧ (token ≫= (TOKENS s !!.) = None ∨ token ≫= (TOKENS s !!.) = Some ""))
  ∨ (∃ nick, token ≫= (TOKENS s !!.) = Some nick ∧ nick ≠ ""
       ∧ s' = set_CLIENTS <[nick := ws]> s ∧ t = [Accepted ws]
       ∧ r = inr (Some nick)).
Proof.
  unfold bind_presence. run_M.
  destruct token as [tok|]; simpl; [|intros [= <- <- <-]; left; eauto].
  destruct (TOKENS s !! tok) as [nick|]; simpl;
    [|intros [= <- <- <-]; left; eauto].
  case_bool_decide as Hn; simpl; intros [= <- <- <-].
  - left. subst. eauto.
  - right. exists nick. eauto.
Qed.

Lemma drain_turn_effect net nick ws items next s s' t r :
  drain_turn net nick ws items next s = (s', t, r) →
  (∃ m, items !! next = Some m ∧ s' = s
        ∧ ((net ws = None ∧ t = [Sent ws m] ∧ r = inr true)
           ∨ (∃ e, net ws = Some e ∧ t = [] ∧ r = inl e)))
  ∨ (items !! next = None ∧ s' = set_MESSAGES <[nick := []]> s
     ∧ t = [] ∧ r = inr false).
Proof.
  unfold drain_turn, send_json. run_M.
  destruct (items !! next) as [m|]; [|intros [= <- <- <-]; right; easy].
  left. exists m. destruct (net ws) as [e|]; simpl in *; simplify_eq/=;
    (split; [easy|]); (split; [easy|]); [right; eauto | left; easy].
Qed.

Lemma turn_mutations net ws nick L next sys :
  rtc mutation (shared sys) (shared (turn net ws nick L next sys)).
Proof.
  unfold turn.
  destruct (drain_turn net nick ws (backlog_items (shared sys) L) next
              (shared sys)) as [[s' t] r] eqn:E.
  apply drain_turn_effect in E
    as [(m & _ & -> & [(_ & _ & ->)|(e & _ & _ & ->)])|(_ & -> & _ & ->)];
    simpl; try reflexivity.
  apply rtc_once, mut_clear.
Qed.

Lemma step_mutations net r sys : rtc mutation (shared sys) (shared (step net r sys)).
Proof.
  destruct r as [n p|n p t|o n p|n f d|token|ws|ws i]; simpl; unfold http.
  - destruct (register n p (shared sys)) as [[s' t] r] eqn:E.
    assert (rtc mutation (shared sys) s') as Hs.
    { apply register_effect in E as [(-> & _)|(Hp & _ & Hu & -> & _)];
        [reflexivity|]. apply rtc_once. now apply mut_register. }
    now destruct r.
  - unfold login. run_M.
    repeat (case_match; simplify_eq/=); try reflexivity.
    apply rtc_once, mut_login. eauto.
  - destruct (change_nick o n p (shared sys)) as [[s' t] r] eqn:E.
    assert (rtc mutation (shared sys) s') as Hs.
    { apply change_nick_effect in E
        as (_ & [(-> & _)|[(u & Hu & _ & Hn & Hq & _ & ->)
                          |(u & q & Hu & _ & Hn & Hq & _ & ->)]]);
        [reflexivity | apply rtc_once; now apply mut_rename_halfway
        | apply rtc_once; now apply mut_rename]. }
    now destruct r.
  - destruct (upload_avatar n f d (shared sys)) as [[s' t] r] eqn:E. simpl.
    apply upload_avatar_effect in E
      as (_ & [(-> & _)|(e & u & _ & _ & Hu & -> & _)]); [reflexivity|].
    apply rtc_once. now eapply mut_avatar.
  - destruct (bind_presence (next_ws sys) token (shared sys)) as [[s' t] r] eqn:E.
    apply bind_presence_effect in E
      as [(-> & _ & -> & _)|(nick & Ht & _ & -> & _ & ->)]; [reflexivity|].
    eapply rtc_l; [|apply turn_mutations].
    destruct token as [tok|]; [|discriminate]. simpl in Ht.
    eapply mut_bind. exact Ht.
  - destruct (suspended sys !! ws) as [[nick L next|nick]|];
      [apply turn_mutations | apply rtc_once, mut_unbind | reflexivity].
  - destruct (handlers sys !! ws) as [nick|]; [|reflexivity].
    destruct (loop_body net nick ws i (shared sys)) as [[s1 t1] r1] eqn:E1.
    assert (rtc mutation (shared sys) s1) as H1.
    { apply loop_body_effect in E1 as (t' & He & _).
      destruct He; [reflexivity | reflexivity |].
      apply rtc_once. now apply mut_queue. }
    destruct (raised_by_write i r1); [exact H1|].
    destruct (serve net nick ws [i] (shared sys)) as [[s' t] r] eqn:E.
    assert (rtc mutation (shared sys) s') as Hs.
    { apply serve_one_effect in E as (s2 & t' & He & Hs' & _).
      assert (rtc mutation (shared sys) s2) as H2.
      { destruct He; [reflexivity | reflexivity |].
        apply rtc_once. now apply mut_queue. }
      destruct Hs' as [->| ->]; [exact H2|].
      eapply rtc_r; [exact H2 | apply mut_unbind]. }
    destruct r as [|[]]; exact Hs.
Qed.

Lemma reachable_invariant (P : store → Prop) :
  P empty_store → (∀ s s', mutation s s' → P s → P s') →
  ∀ sys, reachable sys → P (shared sys).
Proof.
  intros H0 Hstep sys Hr. induction Hr as [|net r sys _ IH]; [exact H0|].
  pose proof (step_mutations net r sys) as Hm.
  induction Hm; eauto.
Qed.

(** ** Invariants of the reachable states *)

Lemma queues_hold_chat_mutation s s' :
  mutation s s' → queues_hold_chat s → queues_hold_chat s'.
Proof.
  unfold queues_hold_chat.
  intros Hm HP k q'. destruct Hm; simpl; eauto.
  - destruct (decide (k = nick)) as [->|N].
    + rewrite lookup_insert_eq. now intros [= <-].
    + rewrite lookup_insert_ne by congruence. eauto.
  - destruct (decide (k = new_nick)) as [->|N].
    + rewrite lookup_insert_eq. intros [= <-]. eauto.
    + rewrite lookup_insert_ne by congruence.
      destruct (decide (k = old_nick)) as [->|N'].
      * now rewrite lookup_delete_eq.
      * rewrite lookup_delete_ne by congruence. eauto.
  - destruct (decide (k = nick)) as [->|N].
    + rewrite lookup_insert_eq. now intros [= <-].
    + rewrite lookup_insert_ne by congruence. eauto.
  - destruct (decide (k = k0)) as [->|N].
    + rewrite lookup_insert_eq. intros [= <-].
      apply Forall_app. split; [eauto|]. now repeat constructor.
    + rewrite lookup_insert_ne by congruence. eauto.
Qed.

Lemma tied_to_users_mutation s s' :
  mutation s s' → tied_to_users s → tied_to_users s'.
Proof.
  intros Hm [HQ HC HT].
  destruct Hm as [nick pw Hp Hu|nick tok Hu|o n u Hu Hn Hq|o n u q Hu Hn Hq
                 |nick u url Hu|tok nick ws Ht|nick|k0 q nick text Hq|nick];
    split; simpl; intros *;
    rewrite ?lookup_fmap, ?lookup_insert_is_Some, ?lookup_delete_is_Some;
    try (rewrite ?lookup_insert_Some; naive_solver).
  - destruct (decide (nick = k)); naive_solver.
  - destruct (decide (nick = k)); naive_solver.
  - assert (is_Some (USERS s !! o)) as Ho by eauto.
    apply HQ in Ho. rewrite Hq in Ho. now destruct Ho.
  - destruct (decide (n = k)) as [|N]; [now left|]. intros Hk. right.
    split; [easy|]. split; [|now apply HC].
    intros <-. apply HC, HQ in Hk. rewrite Hq in Hk. now destruct Hk.
  - assert (is_Some (USERS s !! o)) as Ho by eauto.
    apply HQ in Ho. rewrite Hq in Ho. now destruct Ho.
  - destruct (CLIENTS s !! o) as [c|] eqn:Ec.
    + rewrite lookup_insert_is_Some, lookup_delete_is_Some. naive_solver.
    + intros Hk. destruct (decide (n = k)); [now left|]. right.
      split; [easy|]. split; [|now apply HC]. intros <-.
      rewrite Ec in Hk. now destruct Hk.
  - destruct (TOKENS s !! t) as [m|] eqn:Em; simpl; [|easy].
    unfold repoint. intros [= <-]. case_decide as Hd; [now left|]. right.
    split; [|split; [congruence|]].
    + intros ->. apply HT in Em. rewrite Hn in Em. now destruct Em.
    + eapply HT; eauto.
  - assert (is_Some (USERS s !! nick)) by eauto.
    destruct (decide (nick = k)); naive_solver.
  - assert (is_Some (USERS s !! nick)) by eauto.
    destruct (decide (nick = k)); naive_solver.
  - destruct (decide (nick = k)); naive_solver.
  - destruct (decide (k0 = k)); naive_solver.
Qed.

Lemma activate_unfold net ws token s :
  activate net ws token s =
    match token ≫= (TOKENS s !!.) with
    | None => (s, [Accepted ws; Closed ws], inr None)
    | Some nick =>
        if bool_decide (nick = "") then (s, [Accepted ws; Closed ws], inr None)
        else
          match net ws, default [] (MESSAGES s !! nick) with
          | Some e, _ :: _ => (set_CLIENTS <[nick := ws]> s, [Accepted ws], inl e)
          | _, q => (set_MESSAGES <[nick := []]> (set_CLIENTS <[nick := ws]> s),
                     Accepted ws :: (Sent ws <$> q), inr (Some nick))
          end
    end.
Proof.
  unfold activate, drain. run_M.
  destruct token as [tok|]; simpl; [|reflexivity].
  destruct (TOKENS s !! tok) as [nick|]; simpl; [|reflexivity].
  case_bool_decide; simpl; [reflexivity|].
  rewrite for_each_send. simpl.
  destruct (net ws), (default [] (MESSAGES s !! nick)); simpl;
    rewrite ?app_nil_r; reflexivity.
Qed.

(** ** Typing notices *)

Lemma serve_one_ok net nick ws i s s' t :
  loop_body net nick ws i s = (s', t, inr tt) →
  serve net nick ws [i] s = (s', t, inr Waiting).
Proof.
  intros E. unfold serve. simpl. run_M. rewrite E. simpl.
  now rewrite app_nil_r.
Qed.

Lemma reachable_queues_hold_chat sys :
  reachable sys → queues_hold_chat (shared sys).
Proof.
  apply (reachable_invariant queues_hold_chat).
  - intros k q. simpl. now rewrite lookup_empty.
  - apply queues_hold_chat_mutation.
Qed.

(** C8. A typing notice whose addressee has no websocket bound changes no
    store and writes nothing; in every reachable state each queued entry is
    a chat message; so whatever a later handshake delivers from a queue is a
    chat message. *)
Theorem typing_never_queued :
  (∀ net nick ws data to s,
     py_get data "type" = inr (JStr "typing") →
     py_get data "to" = inr (JStr to) →
     CLIENTS s !! to = None →
     serve net nick ws [Frame data] s = (s, [Received ws data], inr Waiting))
  ∧ (∀ sys, reachable sys → queues_hold_chat (shared sys))
  ∧ (∀ sys net ws token s' t r,
       reachable sys →
       activate net ws token (shared sys) = (s', t, r) →
       ∀ c m, Sent c m ∈ t → c = ws ∧ is_chat m).
Proof.
  split; [|split].
  - intros net nick ws data to s Ht Hto Hc. apply serve_one_ok.
    unfold loop_body, receive_json, contains. run_M. simpl.
    rewrite Ht. simpl. rewrite Hto. simpl. now rewrite Hc.
  - apply reachable_queues_hold_chat.
  - intros sys net ws token s' t r Hr.
    apply reachable_queues_hold_chat in Hr.
    rewrite activate_unfold.
    destruct (token ≫= (TOKENS (shared sys) !!.)) as [nick|];
      [|intros [= <- <- <-] c m Hin; set_solver].
    case_bool_decide; [intros [= <- <- <-] c m Hin; set_solver|].
    assert (Forall is_chat (default [] (MESSAGES (shared sys) !! nick))) as Hq.
    { destruct (MESSAGES (shared sys) !! nick) eqn:E; simpl; eauto. }
    assert (∀ c m, Sent c m ∈ Accepted ws
              :: (Sent ws <$> default [] (MESSAGES (shared sys) !! nick)) →
            c = ws ∧ is_chat m) as Hsent.
    { intros c m [[=]|Hin]%elem_of_cons.
      apply list_elem_of_fmap in Hin as (m' & [= -> ->] & Hm').
      split; [easy|]. eapply Forall_forall in Hq; eauto. }
    destruct (net ws), (default [] (MESSAGES (shared sys) !! nick));
      intros [= <- <- <-]; try exact Hsent.
    intros c m Hin. set_solver.
Qed.

(** ** Store and forward *)


Lemma run_cons net r rs sys : run net (r :: rs) sys = run net rs (step net r sys).
Proof. reflexivity. Qed.



Lemma reachable_run net rs : ∀ sys, reachable sys → reachable (run net rs sys).
Proof.
  induction rs as [|r rs IH]; intros sys H; [exact H|].
  rewrite run_cons. apply IH. now constructor.
Qed.

Lemma reachable_alice_online : reachable alice_online.
Proof. apply reachable_run, reachable_boot. Qed.


Lemma typing_never_queued_witness :
  serve all_up "alice" 0
    [Frame (JObj [("type", JStr "typing"); ("to", JStr "bob")])]
    (shared alice_online)
  = (shared alice_online,
     [Received 0 (JObj [("type", JStr "typing"); ("to", JStr "bob")])],
     inr Waiting)
  ∧ queues_hold_chat (shared alice_online).
Proof.
  destruct typing_never_queued as (H1 & H2 & _). split.
  - apply (H1 all_up "alice" 0 _ "bob");
      [reflexivity | reflexivity | vm_compute; reflexivity].
  - apply H2, reachable_alice_online.
Defined.

(** ** Unknown recipients *)

Lemma reachable_tied_to_users sys : reachable sys → tied_to_users (shared sys).
Proof.
  apply (reachable_invariant tied_to_users).
  - split; simpl; intros *; rewrite ?lookup_empty;
      try easy; intros [? ?]; discriminate.
  - apply tied_to_users_mutation.
Qed.

(** C1 (as the code has it). A chat frame addressed to a nick that is not
    registered gets nothing reported: in a reachable state the handler
    writes no frame to any websocket (none to the sender's either), creates
    no queue, and leaves users, tokens and presence entries as they were. *)
Theorem unknown_recipient_nothing_reported (net : transport) (sys : system)
    (nick : string) (ws : nat) (data : json) (r : string) :
  reachable sys →
  py_get data "type" = inr (JStr "msg") →
  py_get data "to" = inr (JStr r) →
  USERS (shared sys) !! r = None →
  ∃ s' res,
    serve net nick ws [Frame data] (shared sys) = (s', [Received ws data], res)
    ∧ USERS s' = USERS (shared sys)
    ∧ TOKENS s' = TOKENS (shared sys)
    ∧ CLIENTS s' = CLIENTS (shared sys)
    ∧ ∀ k, is_Some (MESSAGES s' !! k) ↔ is_Some (MESSAGES (shared sys) !! k).
Proof.
  intros Hr Ht Hto Hu.
  destruct (reachable_tied_to_users sys Hr) as [_ HC _].
  assert (CLIENTS (shared sys) !! r = None) as Hc.
  { apply eq_None_not_Some. intros H. apply HC in H.
    rewrite Hu in H. now destruct H. }
  destruct (MESSAGES (shared sys) !! r) as [q|] eqn:Hq.
  - assert (py_get data "text" = inr (text_of data)) as Htx.
    { unfold text_of. destruct data; try discriminate. reflexivity. }
    eexists _, _. split.
    { apply serve_one_ok.
      exact (loop_body_chat_offline net nick ws data r (text_of data) q
               (shared sys) Ht Hto Htx Hc Hq). }
    simpl. do 3 (split; [reflexivity|]). intros k.
    rewrite lookup_insert_is_Some. split.
    + intros [<-|[_ H]]; [rewrite Hq; eauto | exact H].
    + intros H. destruct (decide (r = k)); [now left | now right].
  - assert (loop_body net nick ws (Frame data) (shared sys)
            = (shared sys, [Received ws data], inl KeyError)) as E.
    { unfold loop_body, receive_json, contains, append_message, py_index.
      run_M. simpl. rewrite Ht. simpl.
      destruct data as [| | | | |items]; try discriminate.
      simpl in Hto |- *. injection Hto as ->. simpl.
      rewrite Hc. simpl. now rewrite Hq. }
    eexists _, _. split.
    { unfold serve. simpl. run_M. rewrite E. simpl. reflexivity. }
    easy.
Qed.

Lemma unknown_recipient_nothing_reported_witness :
  ∃ s' res,
    serve all_up "alice" 0 [Frame (chat_frame "carol" (JStr "hi"))]
      (shared alice_online)
    = (s', [Received 0 (chat_frame "carol" (JStr "hi"))], res)
    ∧ CLIENTS s' = CLIENTS (shared alice_online).
Proof.
  destruct (unknown_recipient_nothing_reported all_up alice_online "alice" 0
              (chat_frame "carol" (JStr "hi")) "carol")
    as (s' & res & E & _ & _ & Hc & _).
  - apply reachable_run, reachable_boot.
  - reflexivity.
  - reflexivity.
  - vm_compute. reflexivity.
  - exists s', res. split; [exact E | exact Hc].
Defined.

(** C1 as stated fails: alice, connected on websocket 0, sends a chat frame
    to the unregistered carol.  The handler raises [KeyError]: it does not
    stay in its loop and nothing is written to websocket 0. *)
Lemma unknown_recipient_counterexample :
  USERS (shared alice_online) !! "carol" = None
  ∧ serve all_up "alice" 0 [Frame (chat_frame "carol" (JStr "hi"))]
      (shared alice_online)
    = (shared alice_online, [Received 0 (chat_frame "carol" (JStr "hi"))],
       inl KeyError)
  ∧ ¬ (∃ s' t err,
         serve all_up "alice" 0 [Frame (chat_frame "carol" (JStr "hi"))]
           (shared alice_online) = (s', t, inr Waiting)
         ∧ Sent 0 err ∈ t).
Proof.
  assert (serve all_up "alice" 0 [Frame (chat_frame "carol" (JStr "hi"))]
            (shared alice_online)
          = (shared alice_online, [Received 0 (chat_frame "carol" (JStr "hi"))],
             inl KeyError)) as E by (vm_compute; reflexivity).
  split; [vm_compute; reflexivity|]. split; [exact E|].
  intros (s' & t & err & E' & _). rewrite E in E'. discriminate.
Qed.

(** ** A write that fails *)

(** C3 (as the code has it). When the addressee of a chat frame has a
    websocket bound and the write to it fails, the handler does nothing
    more with the message: no queue changes, nothing is delivered, and the
    presence entry of an addressee other than the sender stays bound. *)
Theorem failed_write_no_fallback (net : transport) (nick : string) (ws : nat)
    (data : json) (r : string) (c : nat) (s s' : store) (t : list event)
    (res : exn + status) :
  py_get data "type" = inr (JStr "msg") →
  py_get data "to" = inr (JStr r) →
  CLIENTS s !! r = Some c →
  is_Some (net c) →
  serve net nick ws [Frame data] s = (s', t, res) →
  MESSAGES s' = MESSAGES s
  ∧ t = [Received ws data]
  ∧ (r ≠ nick → CLIENTS s' !! r = Some c).
Proof.
  intros Ht Hto Hc [e He].
  assert (loop_body net nick ws (Frame data) s
          = (s, [Received ws data], inl e)) as E.
  { unfold loop_body, receive_json, contains, py_index, send_json.
    run_M. simpl. rewrite Ht. simpl.
    destruct data as [| | | | |items]; try discriminate.
    simpl in Hto |- *. injection Hto as ->. simpl.
    rewrite Hc. simpl. rewrite Hc. simpl. now rewrite He. }
  unfold serve, on_disconnect. simpl. run_M. rewrite E. simpl.
  case_decide; intros [= <- <- <-]; simpl; rewrite ?app_nil_r.
  - split; [easy|]. split; [easy|]. intros N.
    now rewrite lookup_delete_ne by congruence.
  - easy.
Qed.

Lemma failed_write_no_fallback_witness :
  MESSAGES (shared both_online) = MESSAGES (shared both_online)
  ∧ [Received 0 (chat_frame "bob" (JStr "hi"))]
    = [Received 0 (chat_frame "bob" (JStr "hi"))]
  ∧ ("bob" ≠ "alice" → CLIENTS (shared both_online) !! "bob" = Some 1).
Proof.
  apply (failed_write_no_fallback (ws1_down RuntimeError) "alice" 0
           (chat_frame "bob" (JStr "hi")) "bob" 1 (shared both_online)
           (shared both_online) [Received 0 (chat_frame "bob" (JStr "hi"))]
           (inl RuntimeError)).
  - reflexivity.
  - reflexivity.
  - vm_compute. reflexivity.
  - vm_compute. eauto.
  - vm_compute. reflexivity.
Defined.

(** C3 as stated fails: bob is bound to websocket 1 whose transport is
    broken, and alice sends bob a chat frame.  Whether the write raises
    [RuntimeError] or [WebSocketDisconnect], the queue of bob stays empty
    and bob stays bound to websocket 1. *)
Lemma failed_write_counterexample :
  CLIENTS (shared both_online) !! "bob" = Some 1
  ∧ MESSAGES (shared both_online) !! "bob" = Some []
  ∧ serve (ws1_down RuntimeError) "alice" 0
      [Frame (chat_frame "bob" (JStr "hi"))] (shared both_online)
    = (shared both_online, [Received 0 (chat_frame "bob" (JStr "hi"))],
       inl RuntimeError)
  ∧ serve (ws1_down WebSocketDisconnect) "alice" 0
      [Frame (chat_frame "bob" (JStr "hi"))] (shared both_online)
    = (set_CLIENTS (delete "alice") (shared both_online),
       [Received 0 (chat_frame "bob" (JStr "hi"))], inr Returned)
  ∧ ¬ (∀ e s' t res,
         serve (ws1_down e) "alice" 0
           [Frame (chat_frame "bob" (JStr "hi"))] (shared both_online)
         = (s', t, res) →
         MESSAGES s' !! "bob"
         = Some [chat_msg "alice" (JStr "bob") (JStr "hi")]
         ∧ CLIENTS s' !! "bob" = None).
Proof.
  assert (serve (ws1_down RuntimeError) "alice" 0
            [Frame (chat_frame "bob" (JStr "hi"))] (shared both_online)
          = (shared both_online, [Received 0 (chat_frame "bob" (JStr "hi"))],
             inl RuntimeError)) as E by (vm_compute; reflexivity).
  split; [vm_compute; reflexivity|]. split; [vm_compute; reflexivity|].
  split; [exact E|]. split; [vm_compute; reflexivity|].
  intros H. destruct (H _ _ _ _ E) as [_ Hc].
  vm_compute in Hc. discriminate.
Qed.

(** ** Disconnect *)

(** C4 (as the code has it). At disconnect the handler removes the
    [CLIENTS] entry of its nick whichever websocket it holds, and no other
    entry. *)
Theorem disconnect_unbinds_unconditionally (net : transport) (nick : string)
    (ws : nat) (s : store) :
  ∃ s', serve net nick ws [Disconnect] s = (s', [], inr Returned)
        ∧ CLIENTS s' !! nick = None
        ∧ (∀ k, k ≠ nick → CLIENTS s' !! k = CLIENTS s !! k)
        ∧ USERS s' = USERS s ∧ TOKENS s' = TOKENS s ∧ MESSAGES s' = MESSAGES s.
Proof.
  exists (set_CLIENTS (delete nick) s). split; [reflexivity|]. simpl.
  rewrite lookup_delete_eq. split; [easy|]. split; [|easy].
  intros k N. now rewrite lookup_delete_ne by congruence.
Qed.

(** C4 as stated fails: bob connected on websocket 0 and then on websocket
    1, which took over the [CLIENTS] entry.  The late disconnect of
    websocket 0 removes the entry of bob although it holds websocket 1,
    whose handler is still running. *)
Lemma late_disconnect_counterexample :
  handlers superseded !! 0 = Some "bob"
  ∧ handlers (step all_up (Deliver 0 Disconnect) superseded) !! 1 = Some "bob"
  ∧ CLIENTS (shared superseded) !! "bob" = Some 1
  ∧ CLIENTS (shared (step all_up (Deliver 0 Disconnect) superseded)) !! "bob"
    = None
  ∧ ¬ (CLIENTS (shared superseded) !! "bob" ≠ Some 0 →
       CLIENTS (shared (step all_up (Deliver 0 Disconnect) superseded)) !! "bob"
       = CLIENTS (shared superseded) !! "bob").
Proof.
  repeat split; try (vm_compute; reflexivity).
  intros H. assert (CLIENTS (shared superseded) !! "bob" ≠ Some 0) as N
    by (vm_compute; discriminate).
  apply H in N. vm_compute in N. discriminate.
Qed.

(** ** Frames of another kind *)

(** C5 (as the code has it). A frame that is a JSON object whose ["type"]
    is neither ["msg"] nor ["typing"] (a missing ["type"] included) is
    ignored: the handler stays in its loop, writes nothing and changes no
    store. *)
Theorem unknown_kind_ignored (net : transport) (nick : string) (ws : nat)
    (items : list (string * json)) (s : store) :
  str_eqb (default JNull (items_get "type" items)) "msg" = false →
  str_eqb (default JNull (items_get "type" items)) "typing" = false →
  serve net nick ws [Frame (JObj items)] s
  = (s, [Received ws (JObj items)], inr Waiting).
Proof.
  intros H1 H2. apply serve_one_ok.
  unfold loop_body, receive_json. run_M. simpl. now rewrite H1, H2.
Qed.

Lemma unknown_kind_ignored_witness :
  serve all_up "alice" 0 [Frame (JObj [("type", JStr "ping")])]
    (shared alice_online)
  = (shared alice_online, [Received 0 (JObj [("type", JStr "ping")])],
     inr Waiting)
  ∧ serve all_up "alice" 0 [Frame (JObj [("to", JStr "bob")])]
      (shared alice_online)
    = (shared alice_online, [Received 0 (JObj [("to", JStr "bob")])],
       inr Waiting).
Proof.
  split.
  - apply (unknown_kind_ignored all_up "alice" 0 [("type", JStr "ping")]);
      reflexivity.
  - apply (unknown_kind_ignored all_up "alice" 0 [("to", JStr "bob")]);
      reflexivity.
Defined.

(** C5 as stated fails: a ["msg"] frame with no ["text"] field, addressed
    to bob who is registered and has no websocket bound, is not ignored: a
    message with a null text is appended to the queue of bob. *)
Lemma malformed_frame_counterexample :
  py_get (JObj [("type", JStr "msg"); ("to", JStr "bob")]) "text" = inr JNull
  ∧ MESSAGES (shared alice_online) !! "bob" = Some []
  ∧ ∃ s' t res,
      serve all_up "alice" 0
        [Frame (JObj [("type", JStr "msg"); ("to", JStr "bob")])]
        (shared alice_online) = (s', t, res)
      ∧ MESSAGES s' !! "bob" = Some [chat_msg "alice" (JStr "bob") JNull]
      ∧ s' ≠ shared alice_online.
Proof.
  split; [reflexivity|]. split; [vm_compute; reflexivity|].
  eexists _, _, _. split; [vm_compute; reflexivity|].
  split; [vm_compute; reflexivity|].
  intros H. apply (f_equal (λ s, MESSAGES s !! "bob")) in H.
  vm_compute in H. discriminate.
Qed.

(** ** A handshake that nothing interrupts *)

Lemma activate_is_bind_then_drain net ws token s :
  activate net ws token s
  = (r ← bind_presence ws token;
     match r with
     | None => mret None
     | Some nick => drain net nick ws;; mret (Some nick)
     end) s.
Proof.
  unfold activate, bind_presence. run_M.
  destruct token as [tok|]; simpl; [|reflexivity].
  destruct (TOKENS s !! tok) as [nick|]; simpl; [|reflexivity].
  case_bool_decide; simpl; [reflexivity|].
  destruct (drain net nick ws (set_CLIENTS <[nick:=ws]> s)) as [[s1 t1] [e|[]]];
    reflexivity.
Qed.

Lemma resume_turns net ws nick L : ∀ k next sys,
  net ws = None →
  suspended sys !! ws = Some (InDrain nick L next) →
  length (backlog_items (shared sys) L) = next + k →
  let sys' := run net (replicate (S k) (Resume ws)) sys in
  shared sys' = set_MESSAGES <[nick := []]> (shared sys)
  ∧ wire sys' = wire sys ++ (Sent ws <$> drop next (backlog_items (shared sys) L))
  ∧ handlers sys' = <[ws := nick]> (handlers sys)
  ∧ next_ws sys' = next_ws sys.
Proof.
  induction k as [|k IH]; intros next sys Hok Hs Hlen; cbv zeta.
  - change (replicate 1 (Resume ws)) with [Resume ws].
    rewrite run_cons. change (run net [] ?x) with x.
    cbn [step]. rewrite Hs. unfold turn, drain_turn.
    rewrite lookup_ge_None_2 by lia. run_M. simpl.
    rewrite drop_ge by lia. easy.
  - change (replicate (S (S k)) (Resume ws))
      with (Resume ws :: replicate (S k) (Resume ws)).
    rewrite run_cons.
    destruct (lookup_lt_is_Some_2 (backlog_items (shared sys) L) next)
      as [m Hm]; [lia|].
    assert (step net (Resume ws) sys
            = System (shared sys) (handlers sys)
                (<[ws := InDrain nick L (S next)]> (suspended sys))
                (wire sys ++ [Sent ws m]) (next_ws sys)) as ->.
    { cbn [step]. rewrite Hs. unfold turn, drain_turn, send_json.
      rewrite Hm, Hok. run_M. reflexivity. }
    edestruct (IH (S next)
                 (System (shared sys) (handlers sys)
                    (<[ws := InDrain nick L (S next)]> (suspended sys))
                    (wire sys ++ [Sent ws m]) (next_ws sys)))
      as (E1 & E2 & E3 & E4);
      [exact Hok | cbn [suspended]; apply lookup_insert_eq
      | cbn [shared]; lia |].
    rewrite E1, E2, E3, E4. cbn [shared wire handlers next_ws].
    rewrite (drop_S _ _ _ Hm). rewrite <- app_assoc. easy.
Qed.

(** Taken turn by turn with nothing in between, on a working transport, the
    handshake does what [activate] does in one piece. *)
Lemma handshake_uninterrupted net token sys s' t nick :
  net (next_ws sys) = None →
  activate net (next_ws sys) token (shared sys) = (s', t, inr (Some nick)) →
  let q := default [] (MESSAGES (shared sys) !! nick) in
  let sys' := run net (Connect token :: replicate (length q) (Resume (next_ws sys)))
                sys in
  shared sys' = s' ∧ wire sys' = wire sys ++ t
  ∧ handlers sys' = <[next_ws sys := nick]> (handlers sys).
Proof.
  intros Hok Ea. cbv zeta. rewrite run_cons.
  rewrite activate_unfold in Ea.
  destruct (bind_presence (next_ws sys) token (shared sys)) as [[s1 t1] r1] eqn:Ead.
  apply bind_presence_effect in Ead as H.
  destruct H as [(-> & -> & -> & [Hn|Hn])|(n & Hn & Hne & -> & -> & ->)];
    rewrite Hn in Ea; try discriminate.
  rewrite bool_decide_eq_false_2 in Ea by exact Hne. rewrite Hok in Ea.
  assert (n = nick ∧ s' = set_MESSAGES <[n := []]>
                            (set_CLIENTS <[n := next_ws sys]> (shared sys))
          ∧ t = Accepted (next_ws sys)
                :: (Sent (next_ws sys) <$> default [] (MESSAGES (shared sys) !! n)))
    as (-> & -> & ->).
  { destruct (default [] (MESSAGES (shared sys) !! n)); now simplify_eq/=. }
  cbn [step]. rewrite Ead.
  destruct (MESSAGES (shared sys) !! nick) as [[|m q]|] eqn:Eq.
  - unfold turn, queue_object, drain_turn. cbn [shared set_CLIENTS MESSAGES].
    rewrite Eq. cbn [backlog_items]. cbn [shared set_CLIENTS MESSAGES].
    rewrite Eq. simpl. run_M. simpl. now rewrite app_nil_r.
  - cbn [default length].
    assert (turn net (next_ws sys) nick
              (queue_object (set_CLIENTS <[nick:=next_ws sys]> (shared sys)) nick) 0
              (System (set_CLIENTS <[nick:=next_ws sys]> (shared sys))
                 (handlers sys) (suspended sys)
                 (wire sys ++ [Accepted (next_ws sys)]) (S (next_ws sys)))
            = System (set_CLIENTS <[nick:=next_ws sys]> (shared sys))
                (handlers sys)
                (<[next_ws sys := InDrain nick (Attached nick) 1]> (suspended sys))
                ((wire sys ++ [Accepted (next_ws sys)]) ++ [Sent (next_ws sys) m])
                (S (next_ws sys))) as ->.
    { unfold turn, queue_object, drain_turn, send_json.
      cbn [shared set_CLIENTS MESSAGES]. rewrite Eq. cbn [backlog_items].
      cbn [shared set_CLIENTS MESSAGES]. rewrite Eq. simpl. rewrite Hok.
      run_M. reflexivity. }
    edestruct (resume_turns net (next_ws sys) nick (Attached nick) (length q) 1
                 (System (set_CLIENTS <[nick:=next_ws sys]> (shared sys))
                    (handlers sys)
                    (<[next_ws sys := InDrain nick (Attached nick) 1]>
                       (suspended sys))
                    ((wire sys ++ [Accepted (next_ws sys)])
                     ++ [Sent (next_ws sys) m])
                    (S (next_ws sys))))
      as (E1 & E2 & E3 & _);
      [exact Hok | cbn [suspended]; apply lookup_insert_eq | |].
    { cbn [shared backlog_items set_CLIENTS MESSAGES]. rewrite Eq. simpl. lia. }
    change (length (id (m :: q))) with (S (length q)).
    rewrite E1, E2, E3. cbn [shared wire handlers backlog_items set_CLIENTS MESSAGES].
    rewrite Eq. simpl. rewrite drop_0. rewrite <- !app_assoc. easy.
  - unfold turn, queue_object, drain_turn. cbn [shared set_CLIENTS MESSAGES].
    rewrite Eq. simpl. run_M. simpl. now rewrite app_nil_r.
Qed.

(** The converse of "a registered nick has a queue" fails in a reachable
    state: after a rename during the handshake of bob, line 122 leaves a
    queue under the unregistered nick bob, and the message already written
    to bob's websocket is still queued under rob. *)
Lemma stale_queue_reachable :
  reachable stale_queue
  ∧ USERS (shared stale_queue) !! "bob" = None
  ∧ MESSAGES (shared stale_queue) !! "bob" = Some []
  ∧ MESSAGES (shared stale_queue) !! "rob"
    = Some [chat_msg "alice" (JStr "bob") (JStr "hi")]
  ∧ Sent 1 (chat_msg "alice" (JStr "bob") (JStr "hi")) ∈ wire stale_queue.
Proof.
  split; [apply reachable_run, reachable_run, reachable_boot|].
  repeat split; try (vm_compute; reflexivity).
  apply list_elem_of_In. vm_compute. tauto.
Qed.

(** * More of the routes *)

Lemma bind_inl {A B} (m : M A) (f : A → M B) s s1 t1 e :
  m s = (s1, t1, inl e) → (m ≫= f) s = (s1, t1, inl e).
Proof. intros E. run_M. now rewrite E. Qed.

(** ** [strip] again *)

Lemma lstrip_id s :
  (∀ c, first_char s = Some c → isspace c = false) → lstrip s = s.
Proof.
  destruct s as [|a s]; simpl; [easy|]. intros H. now rewrite (H a eq_refl).
Qed.

Lemma rstrip_id s :
  (∀ c, last_char s = Some c → isspace c = false) → rstrip s = s.
Proof.
  induction s as [|a s IH]; simpl; [easy|]. intros H.
  destruct s as [|b s].
  - simpl. now rewrite (H a eq_refl).
  - rewrite IH by exact H. reflexivity.
Qed.

Lemma strip_idempotent s : strip (strip s) = strip s.
Proof.
  destruct (strip_spec s) as (_ & Hf & Hl).
  unfold strip at 1. rewrite (lstrip_id _ Hf). now apply rstrip_id.
Qed.

(** ** The routes, case by case *)

Lemma login_ok nickname pw tok s u :
  USERS s !! strip nickname = Some u → password u = pw →
  login nickname pw tok s
  = (set_TOKENS <[tok := strip nickname]> s, [],
     inr (JObj [("nickname", JStr (strip nickname)); ("token", JStr tok);
                ("avatar", avatar_json (avatar u))])).
Proof.
  intros Hu Hp. unfold login. run_M. simpl. rewrite Hu.
  rewrite bool_decide_eq_false_2 by (intros N; now apply N). reflexivity.
Qed.

Lemma login_inv nickname pw tok s s' t r :
  login nickname pw tok s = (s', t, r) →
  (∃ u, USERS s !! strip nickname = Some u ∧ password u = pw
        ∧ s' = set_TOKENS <[tok := strip nickname]> s ∧ t = []
        ∧ r = inr (JObj [("nickname", JStr (strip nickname));
                         ("token", JStr tok);
                         ("avatar", avatar_json (avatar u))]))
  ∨ ((USERS s !! strip nickname = None
      ∨ ∃ u, USERS s !! strip nickname = Some u ∧ password u ≠ pw)
     ∧ s' = s ∧ t = [] ∧ r = inl (HTTPException 400 "Invalid credentials")).
Proof.
  unfold login. run_M. simpl.
  destruct (USERS s !! strip nickname) as [u|] eqn:Hu; simpl.
  - case_bool_decide as Hp; simpl; intros [= <- <- <-].
    + right. eauto 10.
    + left. exists u. repeat split; try easy.
      all: destruct (decide (password u = pw)); [easy|]; now destruct Hp.
  - intros [= <- <- <-]. right. eauto.
Qed.

Lemma register_inv nickname pw s s' t resp :
  register nickname pw s = (s', t, inr resp) →
  strip nickname ≠ "" ∧ pw ≠ "" ∧ USERS s !! strip nickname = None
  ∧ s' = set_MESSAGES <[strip nickname := []]>
           (set_USERS <[strip nickname := User pw None]> s)
  ∧ t = [].
Proof.
  unfold register. run_M.
  destruct (decide (strip nickname = "")) as [E|N].
  { rewrite (bool_decide_eq_true_2 _ E). discriminate. }
  destruct (decide (pw = "")) as [E|N'].
  { rewrite (bool_decide_eq_true_2 _ E), orb_true_r. discriminate. }
  rewrite (bool_decide_eq_false_2 _ N), (bool_decide_eq_false_2 _ N'). simpl.
  case_bool_decide as Hu; simpl; [discriminate|].
  intros [= <- <- <-]. repeat split; try easy.
  now apply eq_None_not_Some.
Qed.

Lemma change_nick_inv old_nick new_nick pw s s' t resp :
  change_nick old_nick new_nick pw s = (s', t, inr resp) →
  ∃ u q, USERS s !! old_nick = Some u ∧ password u = pw
    ∧ USERS s !! new_nick = None ∧ MESSAGES s !! old_nick = Some q
    ∧ s' = Store (<[new_nick := u]> (delete old_nick (USERS s)))
                 (repoint old_nick new_nick <$> TOKENS s)
                 (match CLIENTS s !! old_nick with
                  | Some c => <[new_nick := c]> (delete old_nick (CLIENTS s))
                  | None => CLIENTS s
                  end)
                 (<[new_nick := q]> (delete old_nick (MESSAGES s)))
    ∧ t = [] ∧ resp = msg_response "Nick changed".
Proof.
  unfold change_nick, index. run_M. simpl.
  destruct (USERS s !! old_nick) as [u|] eqn:Eu; [|discriminate].
  case_bool_decide as Hp; [discriminate|].
  case_bool_decide as Hnew; [discriminate|].
  simpl. destruct (MESSAGES s !! old_nick) as [q|] eqn:Eq; [|discriminate].
  simpl. intros H. exists u, q.
  split; [easy|]. split; [destruct (decide (password u = pw)); [easy|now destruct Hp]|].
  split; [now apply eq_None_not_Some|]. split; [easy|].
  destruct (CLIENTS s !! old_nick); simpl in H; injection H as <- <- <-; easy.
Qed.

Lemma change_nick_ok old_nick new_nick pw s u q :
  USERS s !! old_nick = Some u → password u = pw →
  USERS s !! new_nick = None → MESSAGES s !! old_nick = Some q →
  change_nick old_nick new_nick pw s
  = (Store (<[new_nick := u]> (delete old_nick (USERS s)))
           (repoint old_nick new_nick <$> TOKENS s)
           (match CLIENTS s !! old_nick with
            | Some c => <[new_nick := c]> (delete old_nick (CLIENTS s))
            | None => CLIENTS s
            end)
           (<[new_nick := q]> (delete old_nick (MESSAGES s))),
     [], inr (msg_response "Nick changed")).
Proof.
  intros Hu Hp Hn Hq. unfold change_nick, index. run_M. simpl.
  rewrite Hu. rewrite bool_decide_eq_false_2 by (intros N; now apply N).
  rewrite bool_decide_eq_false_2 by (rewrite Hn; now intros [? ?]).
  simpl. rewrite Hq. simpl. now destruct (CLIENTS s !! old_nick).
Qed.

(** ** Register, login, rename *)

(** X1. After a successful [register], a login under any spelling of the
    nickname that strips to the same nick and with the same password
    succeeds and binds the token to the stripped nick; with any other
    password it is refused with 400 and changes nothing. *)
Theorem register_then_login (nickname nickname' pw tok : string)
    (s s1 : store) (t : list event) (resp : json) :
  register nickname pw s = (s1, t, inr resp) →
  strip nickname' = strip nickname →
  (∃ s2, login nickname' pw tok s1
         = (s2, [], inr (JObj [("nickname", JStr (strip nickname));
                               ("token", JStr tok); ("avatar", JNull)]))
         ∧ TOKENS s2 !! tok = Some (strip nickname)
         ∧ USERS s2 = USERS s1 ∧ CLIENTS s2 = CLIENTS s1
         ∧ MESSAGES s2 = MESSAGES s1)
  ∧ (∀ pw', pw' ≠ pw →
       login nickname' pw' tok s1
       = (s1, [], inl (HTTPException 400 "Invalid credentials"))).
Proof.
  intros Hr Hs. apply register_inv in Hr as (_ & _ & _ & -> & _).
  assert (USERS (set_MESSAGES <[strip nickname := []]>
                   (set_USERS <[strip nickname := User pw None]> s))
          !! strip nickname' = Some (User pw None)) as Hu.
  { simpl. rewrite Hs. apply lookup_insert_eq. }
  split.
  - eexists. rewrite (login_ok _ _ _ _ _ Hu eq_refl). rewrite Hs.
    split; [reflexivity|]. simpl. now rewrite lookup_insert_eq.
  - intros pw' N.
    destruct (login nickname' pw' tok
                (set_MESSAGES <[strip nickname := []]>
                   (set_USERS <[strip nickname := User pw None]> s)))
      as [[s2 t2] r2] eqn:E.
    apply login_inv in E as [(u & Hu' & Hp & _)|(_ & -> & -> & ->)]; [|easy].
    rewrite Hu in Hu'. injection Hu' as <-. now destruct N.
Qed.

Lemma register_then_login_witness :
  ∃ s2, login "alice  " "pw" "t9"
          (fst (fst (register "  alice " "pw" empty_store)))
        = (s2, [], inr (JObj [("nickname", JStr "alice"); ("token", JStr "t9");
                              ("avatar", JNull)]))
        ∧ TOKENS s2 !! "t9" = Some "alice".
Proof.
  destruct (register_then_login "  alice " "alice  " "pw" "t9" empty_store
              (fst (fst (register "  alice " "pw" empty_store))) []
              (msg_response "Registered"))
    as ((s2 & E & Ht & _) & _).
  - vm_compute. reflexivity.
  - reflexivity.
  - exists s2. split; [exact E | exact Ht].
Defined.

(** X2. Once a nick is registered, a second [register] under any spelling
    that strips to the same nick is refused with 400, whatever the
    password, and changes nothing: the first password stays. *)
Theorem register_twice_rejected (nickname nickname' pw pw' : string)
    (s s1 : store) (t : list event) (resp : json) :
  register nickname pw s = (s1, t, inr resp) →
  strip nickname' = strip nickname →
  (∃ detail, register nickname' pw' s1
             = (s1, [], inl (HTTPException 400 detail)))
  ∧ USERS s1 !! strip nickname = Some (User pw None).
Proof.
  intros Hr Hs. apply register_inv in Hr as (Hn & _ & _ & -> & _).
  assert (USERS (set_MESSAGES <[strip nickname := []]>
                   (set_USERS <[strip nickname := User pw None]> s))
          !! strip nickname = Some (User pw None)) as Hu.
  { simpl. apply lookup_insert_eq. }
  split; [|exact Hu].
  unfold register. rewrite Hs.
  rewrite (bool_decide_eq_false_2 _ Hn). simpl.
  case_bool_decide; [now eexists|].
  run_M. rewrite bool_decide_eq_true_2 by (rewrite Hu; eauto). now eexists.
Qed.

Lemma register_twice_rejected_witness :
  ∃ detail, register " alice" "other"
              (fst (fst (register "alice" "pw" empty_store)))
            = (fst (fst (register "alice" "pw" empty_store)), [],
               inl (HTTPException 400 detail)).
Proof.
  apply (register_twice_rejected "alice" " alice" "pw" "other" empty_store
           (fst (fst (register "alice" "pw" empty_store))) []
           (msg_response "Registered")).
  - vm_compute. reflexivity.
  - reflexivity.
Defined.

(** X3. [change_nick] answers 400 and changes nothing when the old nick is
    not registered, when the password is wrong, or when the new nick is
    taken; renaming a nick to itself is such a case. *)
Theorem change_nick_rejects (old_nick new_nick pw : string) (s : store) :
  ((USERS s !! old_nick = None
    ∨ (∃ u, USERS s !! old_nick = Some u ∧ password u ≠ pw)
    ∨ is_Some (USERS s !! new_nick)) →
   ∃ detail, change_nick old_nick new_nick pw s
             = (s, [], inl (HTTPException 400 detail)))
  ∧ ∃ detail, change_nick old_nick old_nick pw s
              = (s, [], inl (HTTPException 400 detail)).
Proof.
  assert (∀ new_nick,
    (USERS s !! old_nick = None
     ∨ (∃ u, USERS s !! old_nick = Some u ∧ password u ≠ pw)
     ∨ is_Some (USERS s !! new_nick)) →
    ∃ detail, change_nick old_nick new_nick pw s
              = (s, [], inl (HTTPException 400 detail))) as H.
  { intros n H. unfold change_nick. run_M. simpl.
    destruct (USERS s !! old_nick) as [u|] eqn:Eu; [|now eexists].
    case_bool_decide as Hp; [now eexists|].
    case_bool_decide as Hn; [now eexists|].
    destruct H as [H|[(u' & [= <-] & H)|H]]; [discriminate|..].
    - now destruct H.
    - now destruct Hn. }
  split; [apply H|].
  destruct (USERS s !! old_nick) as [u|] eqn:Eu.
  - apply H. right. right. rewrite Eu. eauto.
  - apply H. now left.
Qed.

(** X4. A [change_nick] that succeeds touches the two nicks only: every
    other key of [USERS], [MESSAGES] and [CLIENTS] keeps its value, a token
    of another nick keeps its nick, and no token appears or disappears. *)
Theorem change_nick_leaves_others (old_nick new_nick pw : string)
    (s s' : store) (t : list event) (resp : json) :
  change_nick old_nick new_nick pw s = (s', t, inr resp) →
  (∀ k, k ≠ old_nick → k ≠ new_nick →
     USERS s' !! k = USERS s !! k
     ∧ MESSAGES s' !! k = MESSAGES s !! k
     ∧ CLIENTS s' !! k = CLIENTS s !! k)
  ∧ (∀ tok n, TOKENS s !! tok = Some n → n ≠ old_nick →
       TOKENS s' !! tok = Some n)
  ∧ (∀ tok, TOKENS s' !! tok = None ↔ TOKENS s !! tok = None).
Proof.
  intros H. apply change_nick_inv in H as (u & q & _ & _ & _ & _ & -> & _).
  simpl. split; [|split].
  - intros k No Nn.
    rewrite !lookup_insert_ne, !lookup_delete_ne by congruence.
    split; [easy|]. split; [easy|].
    destruct (CLIENTS s !! old_nick); [|easy].
    now rewrite lookup_insert_ne, lookup_delete_ne by congruence.
  - intros tok n Ht N. rewrite lookup_fmap, Ht. simpl.
    unfold repoint. now rewrite decide_False.
  - intros tok. rewrite lookup_fmap. now destruct (TOKENS s !! tok).
Qed.

Lemma change_nick_leaves_others_witness :
  (USERS (fst (fst (change_nick "bob" "rob" "pw2" (shared both_online))))
     !! "alice" = USERS (shared both_online) !! "alice"
   ∧ MESSAGES (fst (fst (change_nick "bob" "rob" "pw2" (shared both_online))))
       !! "alice" = MESSAGES (shared both_online) !! "alice"
   ∧ CLIENTS (fst (fst (change_nick "bob" "rob" "pw2" (shared both_online))))
       !! "alice" = CLIENTS (shared both_online) !! "alice")
  ∧ TOKENS (fst (fst (change_nick "bob" "rob" "pw2" (shared both_online))))
      !! "t1" = Some "alice".
Proof.
  destruct (change_nick_leaves_others "bob" "rob" "pw2" (shared both_online)
              (fst (fst (change_nick "bob" "rob" "pw2" (shared both_online))))
              [] (msg_response "Nick changed")) as (H1 & H2 & _).
  - vm_compute. reflexivity.
  - split.
    + apply H1; discriminate.
    + apply H2; [vm_compute; reflexivity | discriminate].
Defined.

(** X5. In a reachable state a rename with the right password to a free
    nick always goes through: the queue of a registered nick exists, so
    [MESSAGES.pop] cannot raise after [USERS] was moved. *)
Theorem change_nick_succeeds_when_reachable (sys : system)
    (old_nick new_nick : string) (u : user) :
  reachable sys →
  USERS (shared sys) !! old_nick = Some u →
  USERS (shared sys) !! new_nick = None →
  ∃ s', change_nick old_nick new_nick (password u) (shared sys)
        = (s', [], inr (msg_response "Nick changed"))
        ∧ USERS s' !! new_nick = Some u.
Proof.
  intros Hr Hu Hn.
  destruct (reachable_tied_to_users sys Hr) as [HQ _ _].
  destruct (HQ old_nick) as [q Hq]; [eauto|].
  eexists. rewrite (change_nick_ok _ _ _ _ u q Hu eq_refl Hn Hq).
  split; [reflexivity|]. simpl. apply lookup_insert_eq.
Qed.

Lemma change_nick_succeeds_when_reachable_witness :
  ∃ s', change_nick "bob" "rob" "pw2" (shared alice_online)
        = (s', [], inr (msg_response "Nick changed"))
        ∧ USERS s' !! "rob" = Some (User "pw2" None).
Proof.
  apply (change_nick_succeeds_when_reachable alice_online "bob" "rob"
           (User "pw2" None)).
  - apply reachable_run, reachable_boot.
  - vm_compute. reflexivity.
  - vm_compute. reflexivity.
Defined.

Lemma change_nick_rejects_witness :
  ∃ detail, change_nick "bob" "alice" "pw2" (shared alice_online)
            = (shared alice_online, [], inl (HTTPException 400 detail)).
Proof.
  apply (proj1 (change_nick_rejects "bob" "alice" "pw2" (shared alice_online))).
  right. right. vm_compute. eauto.
Defined.

(** X6. A handler that is running keeps the nick it started with.  When its
    user is renamed, the [CLIENTS] entry moves to the new nick; the later
    disconnect of that handler pops the old nick, so the entry under the
    new nick outlives the connection. *)
Theorem rename_then_disconnect_leaves_entry (net : transport)
    (old_nick new_nick pw : string) (ws : nat) (s s1 : store)
    (t : list event) (resp : json) :
  change_nick old_nick new_nick pw s = (s1, t, inr resp) →
  CLIENTS s !! old_nick = Some ws →
  serve net old_nick ws [Disconnect] s1 = (s1, [], inr Returned)
  ∧ CLIENTS s1 !! new_nick = Some ws.
Proof.
  intros H Hc.
  apply change_nick_inv in H as (u & q & Hu & _ & Hn & _ & -> & _).
  rewrite Hc. split; [|simpl; apply lookup_insert_eq].
  assert (old_nick ≠ new_nick) as N by congruence.
  unfold serve, on_disconnect. simpl. run_M. simpl. unfold set_CLIENTS. simpl.
  rewrite (delete_id (<[new_nick:=ws]> (delete old_nick (CLIENTS s)))); [easy|].
  rewrite lookup_insert_ne by congruence. apply lookup_delete_eq.
Qed.

Lemma rename_then_disconnect_leaves_entry_witness :
  serve all_up "bob" 7 [Disconnect] rename_after
  = (rename_after, [], inr Returned)
  ∧ CLIENTS rename_after !! "rob" = Some 7.
Proof.
  apply (rename_then_disconnect_leaves_entry all_up "bob" "rob" "pw" 7
           rename_before rename_after [] (msg_response "Nick changed")).
  - vm_compute. reflexivity.
  - reflexivity.
Defined.

(** X7. [change_nick] takes the new nick as it is, while [login] strips the
    nickname it is given.  After a rename to a nick with leading or
    trailing whitespace no login can bind a token to that nick. *)
Theorem rename_unstripped_no_login (old_nick new_nick pw : string)
    (s s1 : store) (t : list event) (resp : json) :
  change_nick old_nick new_nick pw s = (s1, t, inr resp) →
  strip new_nick ≠ new_nick →
  USERS s1 !! new_nick = USERS s !! old_nick
  ∧ ∀ nickname pw' tok s2 t2 r,
      login nickname pw' tok s1 = (s2, t2, inr r) →
      TOKENS s2 !! tok ≠ Some new_nick.
Proof.
  intros H Hs.
  apply change_nick_inv in H as (u & q & Hu & _ & _ & _ & -> & _).
  split; [simpl; now rewrite lookup_insert_eq|].
  intros nickname pw' tok s2 t2 r Hl.
  apply login_inv in Hl as [(u' & _ & _ & -> & _)|(_ & _ & _ & [=])].
  simpl. rewrite lookup_insert_eq. intros [= E].
  apply Hs. rewrite <- E. apply strip_idempotent.
Qed.

Lemma rename_unstripped_no_login_witness :
  USERS (fst (fst (change_nick "bob" " bob" "pw2" (shared alice_online))))
    !! " bob"
  = USERS (shared alice_online) !! "bob".
Proof.
  destruct (rename_unstripped_no_login "bob" " bob" "pw2" (shared alice_online)
              (fst (fst (change_nick "bob" " bob" "pw2" (shared alice_online))))
              [] (msg_response "Nick changed")) as [H _].
  - vm_compute. reflexivity.
  - discriminate.
  - exact H.
Defined.

(** X8. [change_nick] accepts the empty string as new nick, and the
    handshake treats an empty nick like an unknown token.  After a rename
    to the empty nick every token of the user is refused: the websocket is
    accepted and closed, nothing is sent and the stores stay as they are. *)
Theorem empty_nick_never_connects (net : transport) (old_nick pw tok : string)
    (ws : nat) (ins : list inbound) (s s1 : store) (t : list event)
    (resp : json) :
  change_nick old_nick "" pw s = (s1, t, inr resp) →
  TOKENS s !! tok = Some old_nick →
  TOKENS s1 !! tok = Some ""
  ∧ websocket_endpoint net ws (Some tok) ins s1
    = (s1, [Accepted ws; Closed ws], inr Returned).
Proof.
  intros H Ht.
  apply change_nick_inv in H as (u & q & _ & _ & _ & _ & Hs1 & _).
  assert (TOKENS s1 !! tok = Some "") as E.
  { rewrite Hs1. simpl. rewrite lookup_fmap, Ht. simpl. unfold repoint.
    now rewrite decide_True. }
  split; [exact E|].
  assert (activate net ws (Some tok) s1
          = (s1, [Accepted ws; Closed ws], inr None)) as Ea.
  { rewrite activate_unfold. cbn [mbind option_bind]. now rewrite E. }
  unfold websocket_endpoint. now rewrite (bind_inr _ _ _ _ _ _ Ea).
Qed.

Lemma empty_nick_never_connects_witness :
  websocket_endpoint all_up 5 (Some "t2") [Frame JNull]
    (fst (fst (change_nick "bob" "" "pw2" (shared alice_online))))
  = (fst (fst (change_nick "bob" "" "pw2" (shared alice_online))),
     [Accepted 5; Closed 5], inr Returned).
Proof.
  apply (empty_nick_never_connects all_up "bob" "pw2" "t2" 5 [Frame JNull]
           (shared alice_online)
           (fst (fst (change_nick "bob" "" "pw2" (shared alice_online))))
           [] (msg_response "Nick changed")).
  - vm_compute. reflexivity.
  - vm_compute. reflexivity.
Defined.

(** ** Avatars *)

(** The URL [upload_avatar] stores. *)
Lemma upload_avatar_ok nick e s u :
  USERS s !! nick = Some u →
  upload_avatar nick (Some e) None s
  = (set_USERS <[nick := User (password u)
                   (Some ("/avatar/" +:+ nick
                          +:+ (if bool_decide (e = "") then ".png" else e)))]> s,
     [],
     inr (JObj [("avatar_url",
                 JStr ("/avatar/" +:+ nick
                       +:+ (if bool_decide (e = "") then ".png" else e)))])).
Proof.
  intros Hu. unfold upload_avatar, index. run_M. simpl. now rewrite Hu.
Qed.

(** X9. When the avatar file is written without error, [upload_avatar]
    for a registered nick stores the URL ["/avatar/" + nick + ext] (with
    [".png"] for an empty extension), keeps the password and touches no
    other store, and asks for no credential; the next login of that user
    with the old password succeeds and returns that URL. *)
Theorem upload_avatar_then_login (nick nickname e tok : string) (u : user)
    (s : store) :
  USERS s !! nick = Some u →
  strip nickname = nick →
  let url := "/avatar/" +:+ nick +:+ (if bool_decide (e = "") then ".png" else e) in
  ∃ s1, upload_avatar nick (Some e) None s
        = (s1, [], inr (JObj [("avatar_url", JStr url)]))
        ∧ USERS s1 !! nick = Some (User (password u) (Some url))
        ∧ (∀ k, k ≠ nick → USERS s1 !! k = USERS s !! k)
        ∧ TOKENS s1 = TOKENS s ∧ CLIENTS s1 = CLIENTS s
        ∧ MESSAGES s1 = MESSAGES s
        ∧ ∃ s2, login nickname (password u) tok s1
                = (s2, [], inr (JObj [("nickname", JStr nick);
                                      ("token", JStr tok);
                                      ("avatar", JStr url)])).
Proof.
  intros Hu Hs url. eexists. rewrite (upload_avatar_ok _ _ _ _ Hu). fold url.
  split; [reflexivity|]. simpl. rewrite lookup_insert_eq.
  split; [easy|]. split; [intros k N; now rewrite lookup_insert_ne by congruence|].
  do 3 (split; [easy|]). eexists.
  pose proof (login_ok nickname (password u) tok
                (set_USERS <[nick := User (password u) (Some url)]> s)
                (User (password u) (Some url))) as Hl.
  rewrite Hs in Hl. apply Hl; [simpl; apply lookup_insert_eq | reflexivity].
Qed.

Lemma upload_avatar_then_login_witness :
  ∃ s1, upload_avatar "bob" (Some "") None (shared alice_online)
        = (s1, [], inr (JObj [("avatar_url", JStr "/avatar/bob.png")]))
        ∧ USERS s1 !! "bob" = Some (User "pw2" (Some "/avatar/bob.png")).
Proof.
  destruct (upload_avatar_then_login "bob" " bob" "" "t7" (User "pw2" None)
              (shared alice_online)) as (s1 & E & Hu & _).
  - vm_compute. reflexivity.
  - reflexivity.
  - exists s1. split; [exact E | exact Hu].
Defined.

(** X10. [upload_avatar] without a file answers 400.  With a file, an
    error of opening, reading or writing the avatar file is raised as it
    is, for a registered nick too; when the file is written and the nick is
    not registered the route raises [KeyError] instead of an HTTP error.
    None of these changes a store. *)
Theorem upload_avatar_faults (nick : string) (s : store) :
  (∀ d, upload_avatar nick None d s
        = (s, [], inl (HTTPException 400 "No file")))
  ∧ (∀ e err, upload_avatar nick (Some e) (Some err) s = (s, [], inl err))
  ∧ (USERS s !! nick = None →
     ∀ e, upload_avatar nick (Some e) None s = (s, [], inl KeyError)).
Proof.
  split; [reflexivity|]. split; [reflexivity|]. intros Hu e.
  unfold upload_avatar, index. run_M. simpl. now rewrite Hu.
Qed.

Lemma upload_avatar_faults_witness :
  upload_avatar "carol" (Some ".jpg") None (shared alice_online)
  = (shared alice_online, [], inl KeyError)
  ∧ upload_avatar "a/b" (Some ".png") (Some OSError) (shared alice_online)
    = (shared alice_online, [], inl OSError).
Proof.
  destruct (upload_avatar_faults "carol" (shared alice_online)) as (_ & _ & H).
  destruct (upload_avatar_faults "a/b" (shared alice_online)) as (_ & H' & _).
  split; [apply H; vm_compute; reflexivity | apply H'].
Defined.

(** ** Invariants of the running server *)

(** X11. In every reachable state every registered nick has a queue, every
    [CLIENTS] key is a registered nick, and every token maps to a
    registered nick.  (The converse for queues fails: see
    [stale_queue_reachable].) *)
Theorem reachable_stores_consistent (sys : system) :
  reachable sys →
  (∀ k, is_Some (USERS (shared sys) !! k) → is_Some (MESSAGES (shared sys) !! k))
  ∧ (∀ k, is_Some (CLIENTS (shared sys) !! k) → is_Some (USERS (shared sys) !! k))
  ∧ (∀ tok k, TOKENS (shared sys) !! tok = Some k →
       is_Some (USERS (shared sys) !! k)).
Proof.
  intros Hr. destruct (reachable_tied_to_users sys Hr) as [HQ HC HT].
  split; [exact HQ|]. split; [exact HC | exact HT].
Qed.

Lemma reachable_stores_consistent_witness :
  is_Some (MESSAGES (shared stale_queue) !! "rob")
  ∧ is_Some (USERS (shared stale_queue) !! "rob").
Proof.
  destruct (reachable_stores_consistent stale_queue) as (HQ & HC & _).
  - apply reachable_run, reachable_run, reachable_boot.
  - assert (is_Some (CLIENTS (shared stale_queue) !! "rob")) as H
      by (vm_compute; eauto).
    apply HC in H. split; [apply HQ|]; exact H.
Defined.

Lemma tokens_kept_mutation s s' tok :
  mutation s s' → is_Some (TOKENS s !! tok) → is_Some (TOKENS s' !! tok).
Proof.
  intros Hm Ht. destruct Hm; simpl; try exact Ht.
  - rewrite lookup_insert_is_Some.
    destruct (decide (tok0 = tok)); [now left | now right].
  - rewrite lookup_fmap. destruct Ht as [n ->]. simpl. eauto.
Qed.

(** X12. No step of the server removes a token: a token that resolves keeps
    resolving through every later request, handshake, frame and
    disconnect. *)
Theorem tokens_never_revoked (net : transport) (rs : list request)
    (sys : system) (tok : string) :
  is_Some (TOKENS (shared sys) !! tok) →
  is_Some (TOKENS (shared (run net rs sys)) !! tok).
Proof.
  revert sys. induction rs as [|r rs IH]; intros sys Ht; [exact Ht|].
  rewrite run_cons. apply IH.
  pose proof (step_mutations net r sys) as Hm.
  induction Hm; eauto using tokens_kept_mutation.
Qed.

Lemma tokens_never_revoked_witness :
  is_Some (TOKENS (shared (run all_up [Deliver 0 Disconnect;
                                       ChangeNick "alice" "al" "pw"]
                             alice_online)) !! "t1").
Proof.
  apply (tokens_never_revoked all_up
           [Deliver 0 Disconnect; ChangeNick "alice" "al" "pw"]
           alice_online "t1").
  vm_compute. eauto.
Defined.

Lemma passwords_set_mutation s s' :
  mutation s s' → passwords_set s → passwords_set s'.
Proof.
  unfold passwords_set. intros Hm HP.
  destruct Hm as [nick pw Hp Hu|nick tok Hu|o n u Hu Hn Hq|o n u q Hu Hn Hq
                 |nick u url Hu|tok nick ws Ht|nick|k0 q nick text Hq|nick];
    simpl; try exact HP; intros k u'; rewrite lookup_insert; case_decide;
    try (intros [= <-]; simpl; eauto);
    rewrite ?lookup_delete; try case_decide; try easy; eauto.
Qed.

Lemma reachable_passwords_set sys : reachable sys → passwords_set (shared sys).
Proof.
  apply (reachable_invariant passwords_set).
  - intros k u. simpl. now rewrite lookup_empty.
  - apply passwords_set_mutation.
Qed.

(** X13. [register] refuses an empty password and no route sets one, so in
    every reachable state every stored password is non-empty and a login
    with an empty password is refused, whatever the nickname. *)
Theorem empty_password_never_logs_in (sys : system) (nickname tok : string) :
  reachable sys →
  passwords_set (shared sys)
  ∧ login nickname "" tok (shared sys)
    = (shared sys, [], inl (HTTPException 400 "Invalid credentials")).
Proof.
  intros Hr. apply reachable_passwords_set in Hr. split; [exact Hr|].
  destruct (login nickname "" tok (shared sys)) as [[s' t] r] eqn:E.
  apply login_inv in E as [(u & Hu & Hp & _)|(_ & -> & -> & ->)]; [|easy].
  now apply Hr in Hu.
Qed.

Lemma empty_password_never_logs_in_witness :
  login "bob" "" "t5" (shared alice_online)
  = (shared alice_online, [], inl (HTTPException 400 "Invalid credentials")).
Proof.
  apply (empty_password_never_logs_in alice_online "bob" "t5").
  apply reachable_run, reachable_boot.
Defined.

(** ** The receive loop *)

Lemma py_get_text data typ :
  py_get data "type" = inr typ → py_get data "text" = inr (text_of data).
Proof. unfold text_of. destruct data; try discriminate. reflexivity. Qed.

Lemma loop_body_chat_online net nick ws data r c s :
  chat_to r data → CLIENTS s !! r = Some c →
  loop_body net nick ws (Frame data) s
  = match net c with
    | None => (s, [Received ws data;
                   Sent c (chat_msg nick (JStr r) (text_of data))], inr tt)
    | Some e => (s, [Received ws data], inl e)
    end.
Proof.
  intros [Ht Hto] Hc. pose proof (py_get_text _ _ Ht) as Htx.
  unfold loop_body, receive_json, contains, py_index, send_json.
  run_M. simpl. rewrite Ht. simpl. rewrite Hto, Htx. simpl.
  rewrite Hc. simpl. rewrite Hc. simpl. now destruct (net c).
Qed.

Lemma loop_body_typing_online net nick ws data r c s :
  py_get data "type" = inr (JStr "typing") →
  py_get data "to" = inr (JStr r) → CLIENTS s !! r = Some c →
  loop_body net nick ws (Frame data) s
  = match net c with
    | None => (s, [Received ws data; Sent c (typing_msg nick)], inr tt)
    | Some e => (s, [Received ws data], inl e)
    end.
Proof.
  intros Ht Hto Hc.
  unfold loop_body, receive_json, contains, py_index, send_json.
  run_M. simpl. rewrite Ht. simpl. rewrite Hto. simpl.
  rewrite Hc. simpl. rewrite Hc. simpl. now destruct (net c).
Qed.

(** X14. When the addressee has a websocket bound and the write goes
    through, a chat frame is written once to that websocket and a typing
    frame likewise; no queue or other store changes and the handler stays
    in its loop. *)
Theorem live_delivery (net : transport) (nick : string) (ws : nat)
    (data : json) (r : string) (c : nat) (s : store) :
  CLIENTS s !! r = Some c → net c = None →
  py_get data "to" = inr (JStr r) →
  (py_get data "type" = inr (JStr "msg") →
   serve net nick ws [Frame data] s
   = (s, [Received ws data; Sent c (chat_msg nick (JStr r) (text_of data))],
      inr Waiting))
  ∧ (py_get data "type" = inr (JStr "typing") →
     serve net nick ws [Frame data] s
     = (s, [Received ws data; Sent c (typing_msg nick)], inr Waiting)).
Proof.
  intros Hc Hok Hto. split; intros Ht; apply serve_one_ok.
  - rewrite (loop_body_chat_online net nick ws data r c s (conj Ht Hto) Hc).
    now rewrite Hok.
  - rewrite (loop_body_typing_online net nick ws data r c s Ht Hto Hc).
    now rewrite Hok.
Qed.

Lemma live_delivery_witness :
  serve all_up "alice" 0 [Frame (chat_frame "bob" (JStr "hi"))]
    (shared both_online)
  = (shared both_online,
     [Received 0 (chat_frame "bob" (JStr "hi"));
      Sent 1 (chat_msg "alice" (JStr "bob") (JStr "hi"))], inr Waiting).
Proof.
  apply (live_delivery all_up "alice" 0 (chat_frame "bob" (JStr "hi")) "bob" 1
           (shared both_online)).
  - vm_compute. reflexivity.
  - reflexivity.
  - reflexivity.
  - reflexivity.
Defined.

Lemma loop_body_sent_stamped net nick ws i s s' t r :
  loop_body net nick ws i s = (s', t, r) →
  ∀ c m, Sent c m ∈ t → stamped nick m.
Proof.
  unfold loop_body, receive_json, contains, append_message, py_index,
    send_json, as_key, py_get, str_eqb.
  run_M. intros H c m.
  repeat (case_match; simplify_eq/=); set_solver.
Qed.

(** X15. Whatever the client puts in a frame, every frame one pass of the
    loop writes, and every entry it appends to a queue, carries the nick of
    the handler as ["from"]; queues only grow at their end. *)
Theorem sender_is_stamped (net : transport) (nick : string) (ws : nat)
    (i : inbound) (s s' : store) (t : list event) (r : exn + status) :
  serve net nick ws [i] s = (s', t, r) →
  (∀ c m, Sent c m ∈ t → stamped nick m)
  ∧ (∀ k q, MESSAGES s !! k = Some q →
       ∃ ms, MESSAGES s' !! k = Some (q ++ ms) ∧ Forall (stamped nick) ms).
Proof.
  intros H. split.
  - revert H. unfold serve, on_disconnect. simpl. run_M.
    destruct (loop_body net nick ws i s) as [[s1 t1] r1] eqn:E.
    pose proof (loop_body_sent_stamped _ _ _ _ _ _ _ _ E) as Hs.
    destruct r1 as [e|[]]; simpl; [case_decide|]; intros [= <- <- <-];
      rewrite ?app_nil_r; exact Hs.
  - apply serve_one_effect in H as (s1 & t' & He & Hs' & _).
    intros k q Hq.
    assert (∃ ms, MESSAGES s1 !! k = Some (q ++ ms) ∧ Forall (stamped nick) ms)
      as H1.
    { destruct He as [|? ? ? _|k0 q0 text _ Hq0].
      - exists []. now rewrite app_nil_r.
      - exists []. now rewrite app_nil_r.
      - simpl. destruct (decide (k0 = k)) as [->|N].
        + rewrite lookup_insert_eq. rewrite Hq in Hq0. injection Hq0 as <-.
          eexists. split; [reflexivity|]. now repeat constructor.
        + rewrite lookup_insert_ne by exact N.
          exists []. now rewrite app_nil_r. }
    destruct Hs' as [->| ->]; exact H1.
Qed.

Lemma sender_is_stamped_witness :
  stamped "alice" (chat_msg "alice" (JStr "bob") JNull).
Proof.
  destruct (sender_is_stamped all_up "alice" 0
              (Frame (JObj [("type", JStr "msg"); ("from", JStr "eve");
                            ("to", JStr "bob")]))
              (shared both_online) (shared both_online)
              [Received 0 (JObj [("type", JStr "msg"); ("from", JStr "eve");
                                 ("to", JStr "bob")]);
               Sent 1 (chat_msg "alice" (JStr "bob") JNull)]
              (inr Waiting)) as [H _].
  - vm_compute. reflexivity.
  - apply (H 1). apply list_elem_of_In. right. left. reflexivity.
Defined.

(** ** The handshake and the end of a handler *)

(** X16. A handshake that reaches the loop binds its nick to the new
    websocket whatever was bound before, without closing or writing to any
    other websocket, and touches no other nick's presence entry or queue;
    from then on a chat frame for that nick is written to the new
    websocket. *)
Theorem last_bind_wins (net : transport) (ws : nat) (token : option string)
    (s s1 : store) (t : list event) (nick : string) :
  activate net ws token s = (s1, t, inr (Some nick)) →
  CLIENTS s1 !! nick = Some ws
  ∧ (∀ k, k ≠ nick →
       CLIENTS s1 !! k = CLIENTS s !! k ∧ MESSAGES s1 !! k = MESSAGES s !! k)
  ∧ (∀ c, Closed c ∉ t)
  ∧ (∀ c m, Sent c m ∈ t → c = ws)
  ∧ (∀ net' sender ws' data,
       net' ws = None → chat_to nick data →
       serve net' sender ws' [Frame data] s1
       = (s1, [Received ws' data;
               Sent ws (chat_msg sender (JStr nick) (text_of data))],
          inr Waiting)).
Proof.
  rewrite activate_unfold.
  destruct (token ≫= (TOKENS s !!.)) as [n|]; [|discriminate].
  case_bool_decide; [discriminate|].
  assert (∀ q : list json,
            (∀ c, Closed c ∉ Accepted ws :: (Sent ws <$> q))
            ∧ (∀ c m, Sent c m ∈ Accepted ws :: (Sent ws <$> q) → c = ws))
    as Ht.
  { intros q. split.
    - intros c [[=]|Hin]%elem_of_cons.
      apply list_elem_of_fmap in Hin as (? & [=] & _).
    - intros c m [[=]|Hin]%elem_of_cons.
      now apply list_elem_of_fmap in Hin as (? & [= -> ->] & _). }
  intros E.
  assert (s1 = set_MESSAGES <[n := []]> (set_CLIENTS <[n := ws]> s)
          ∧ (∃ q, t = Accepted ws :: (Sent ws <$> q)) ∧ n = nick)
    as (-> & (q & ->) & ->).
  { destruct (net ws), (default [] (MESSAGES s !! n)) as [|m0 l] eqn:Eq;
      simplify_eq/=; (split; [reflexivity|]); (split; [|reflexivity]);
      first [by exists [] | by exists (m0 :: l)]. }
  simpl. rewrite lookup_insert_eq. split; [easy|].
  split; [intros k N; now rewrite !lookup_insert_ne by congruence|].
  split; [apply Ht|]. split; [apply Ht|].
  intros net' sender ws' data Hok Hchat. apply serve_one_ok.
  erewrite loop_body_chat_online; [|exact Hchat|simpl; apply lookup_insert_eq].
  now rewrite Hok.
Qed.

Lemma last_bind_wins_witness :
  CLIENTS (shared superseded) !! "bob" = Some 1.
Proof.
  apply (last_bind_wins all_up 1 (Some "t2")
           (shared (run all_up [Register "bob" "pw2"; Login "bob" "pw2" "t2";
                                Connect (Some "t2")] boot))
           (shared superseded) [Accepted 1] "bob").
  vm_compute. reflexivity.
Defined.

(** X17. The queued messages are sent before the [try].  When the first
    write of the handshake fails, the handler ends with that exception
    (a [WebSocketDisconnect] too): the queue is kept whole, and the nick
    stays bound to the failed websocket.  A later handshake on a working
    transport still delivers the whole queue. *)
Theorem failed_drain_keeps_queue (net net' : transport) (ws ws' : nat)
    (tok nick : string) (m : json) (q : list json) (e : exn)
    (ins : list inbound) (s : store) :
  TOKENS s !! tok = Some nick → nick ≠ "" →
  MESSAGES s !! nick = Some (m :: q) →
  net ws = Some e → net' ws' = None →
  ∃ s1,
    websocket_endpoint net ws (Some tok) ins s = (s1, [Accepted ws], inl e)
    ∧ MESSAGES s1 = MESSAGES s
    ∧ CLIENTS s1 !! nick = Some ws
    ∧ ∃ s2, activate net' ws' (Some tok) s1
            = (s2, Accepted ws' :: (Sent ws' <$> m :: q), inr (Some nick)).
Proof.
  intros Ht Hn Hq He Hok. exists (set_CLIENTS <[nick := ws]> s).
  assert (activate net ws (Some tok) s
          = (set_CLIENTS <[nick := ws]> s, [Accepted ws], inl e)) as Ea.
  { rewrite activate_unfold. cbn [mbind option_bind]. rewrite Ht.
    rewrite bool_decide_eq_false_2 by exact Hn. now rewrite He, Hq. }
  split; [unfold websocket_endpoint; now rewrite (bind_inl _ _ _ _ _ _ Ea)|].
  split; [reflexivity|]. split; [simpl; apply lookup_insert_eq|].
  eexists. rewrite activate_unfold. cbn [mbind option_bind]. simpl.
  rewrite Ht. rewrite bool_decide_eq_false_2 by exact Hn.
  now rewrite Hok, Hq.
Qed.

Lemma failed_drain_keeps_queue_witness :
  ∃ s1,
    websocket_endpoint (ws1_down WebSocketDisconnect) 1 (Some "t2") []
      (shared (run all_up (deliver_chat <$> two_sends) alice_online))
    = (s1, [Accepted 1], inl WebSocketDisconnect)
    ∧ MESSAGES s1
      = MESSAGES (shared (run all_up (deliver_chat <$> two_sends) alice_online)).
Proof.
  destruct (failed_drain_keeps_queue (ws1_down WebSocketDisconnect) all_up
              1 2 "t2" "bob"
              (chat_msg "alice" (JStr "bob") (JStr "hi"))
              [chat_msg "alice" (JStr "bob") (JStr "there")]
              WebSocketDisconnect []
              (shared (run all_up (deliver_chat <$> two_sends) alice_online)))
    as (s1 & E & Hm & _).
  - vm_compute. reflexivity.
  - discriminate.
  - vm_compute. reflexivity.
  - reflexivity.
  - reflexivity.
  - exists s1. split; [exact E | exact Hm].
Defined.

Lemma while_true_clients net nick ws ins : ∀ s s' t r,
  while_true net nick ws ins s = (s', t, r) →
  CLIENTS s' = CLIENTS s ∧ r ≠ inr Returned.
Proof.
  induction ins as [|i ins IH]; intros s s' t r; simpl.
  - intros [= <- <- <-]. easy.
  - run_M. destruct (loop_body net nick ws i s) as [[s1 t1] r1] eqn:E.
    apply loop_body_effect in E as (t' & He & _).
    assert (CLIENTS s1 = CLIENTS s) as H1 by (now destruct He).
    destruct r1 as [e|[]].
    + intros [= <- <- <-]. easy.
    + destruct (while_true net nick ws ins s1) as [[s2 t2] r2] eqn:E2.
      apply IH in E2 as [H2 Hr]. intros [= <- <- <-].
      split; [congruence | exact Hr].
Qed.

(** X18. Over any run of frames the handler changes [CLIENTS] in one way
    only: when it returns through [except WebSocketDisconnect] the entry of
    its nick is gone and no other entry changed.  While it waits, and when
    it ends with any other exception, [CLIENTS] is as it was: a handler
    that dies of a [KeyError] leaves its nick bound. *)
Theorem presence_changes_only_at_disconnect (net : transport) (nick : string)
    (ws : nat) (ins : list inbound) (s s' : store) (t : list event)
    (r : exn + status) :
  serve net nick ws ins s = (s', t, r) →
  match r with
  | inr Returned => CLIENTS s' = delete nick (CLIENTS s)
  | inr Waiting => CLIENTS s' = CLIENTS s
  | inl e => CLIENTS s' = CLIENTS s ∧ e ≠ WebSocketDisconnect
  end.
Proof.
  unfold serve, on_disconnect. run_M.
  destruct (while_true net nick ws ins s) as [[s1 t1] r1] eqn:E.
  apply while_true_clients in E as [H1 Hr].
  destruct r1 as [e|[]]; [|intros [= <- <- <-]; exact H1|now destruct Hr].
  case_decide as He; simpl; intros [= <- <- <-]; simpl; [now rewrite H1|].
  easy.
Qed.

Lemma presence_changes_only_at_disconnect_witness :
  CLIENTS (shared alice_online) = CLIENTS (shared alice_online)
  ∧ KeyError ≠ WebSocketDisconnect.
Proof.
  apply (presence_changes_only_at_disconnect all_up "alice" 0
           [Frame (chat_frame "carol" (JStr "hi")); Disconnect]
           (shared alice_online) (shared alice_online)
           [Received 0 (chat_frame "carol" (JStr "hi"))] (inl KeyError)).
  vm_compute. reflexivity.
Defined.

(** X19. Frames the handler does not survive.  A document that is not an
    object raises [AttributeError]; a text frame that is not JSON raises
    [JSONDecodeError] and a binary frame [KeyError]; a ["msg"] or
    ["typing"] frame whose ["to"] is a list or an object raises
    [TypeError]; a ["msg"] frame whose ["to"] is missing, null, a boolean
    or a number raises [KeyError].  In each case nothing is written and no
    store changes. *)
Theorem frames_that_raise (net : transport) (nick : string) (ws : nat)
    (s : store) :
  (∀ data, (∀ items, data ≠ JObj items) →
     serve net nick ws [Frame data] s
     = (s, [Received ws data], inl AttributeError))
  ∧ serve net nick ws [BadFrame] s = (s, [], inl JSONDecodeError)
  ∧ serve net nick ws [BinaryFrame] s = (s, [], inl KeyError)
  ∧ (∀ data to,
       py_get data "type" = inr (JStr "msg")
       ∨ py_get data "type" = inr (JStr "typing") →
       py_get data "to" = inr to → unhashable to →
       serve net nick ws [Frame data] s
       = (s, [Received ws data], inl TypeError))
  ∧ (∀ data to,
       py_get data "type" = inr (JStr "msg") →
       py_get data "to" = inr to → no_nick to →
       serve net nick ws [Frame data] s
       = (s, [Received ws data], inl KeyError)).
Proof.
  assert (∀ i t e, e ≠ WebSocketDisconnect →
            loop_body net nick ws i s = (s, t, inl e) →
            serve net nick ws [i] s = (s, t, inl e)) as Hserve.
  { intros i t e N E. unfold serve. simpl. run_M. rewrite E. simpl.
    now rewrite decide_False. }
  split; [|split; [|split; [|split]]].
  - intros data Hd. apply Hserve; [discriminate|].
    unfold loop_body, receive_json. run_M. simpl.
    destruct data; try reflexivity. now destruct (Hd items).
  - now apply Hserve.
  - now apply Hserve.
  - intros data to Ht Hto Hu. apply Hserve; [discriminate|].
    pose proof (py_get_text data) as Htx.
    unfold loop_body, receive_json, contains. run_M. simpl.
    destruct Ht as [Ht|Ht]; rewrite Ht; simpl; rewrite Hto; simpl;
      rewrite ?(Htx _ Ht); simpl; destruct to; try easy.
  - intros data to Ht Hto Hn. apply Hserve; [discriminate|].
    pose proof (py_get_text data _ Ht) as Htx.
    unfold loop_body, receive_json, contains, append_message. run_M. simpl.
    rewrite Ht; simpl; rewrite Hto; simpl; rewrite Htx; simpl.
    destruct to; try easy.
Qed.

Lemma frames_that_raise_witness :
  serve all_up "alice" 0 [Frame (JArr [JNum 1])] (shared alice_online)
  = (shared alice_online, [Received 0 (JArr [JNum 1])], inl AttributeError)
  ∧ serve all_up "alice" 0 [Frame (JObj [("type", JStr "msg")])]
      (shared alice_online)
    = (shared alice_online, [Received 0 (JObj [("type", JStr "msg")])],
       inl KeyError).
Proof.
  destruct (frames_that_raise all_up "alice" 0 (shared alice_online))
    as (H1 & _ & _ & _ & H4).
  split.
  - apply H1. discriminate.
  - apply (H4 _ JNull); [reflexivity | reflexivity | exact I].
Defined.

(** X20. Once the handler has returned or raised, the frames that follow
    are never read: the outcome, the trace and the stores are those of the
    frames up to that point. *)
Theorem later_frames_unread (net : transport) (nick : string) (ws : nat)
    (ins rest : list inbound) (s s' : store) (t : list event)
    (r : exn + status) :
  serve net nick ws ins s = (s', t, r) → r ≠ inr Waiting →
  serve net nick ws (ins ++ rest) s = (s', t, r).
Proof.
  revert s s' t r. induction ins as [|i ins IH]; intros s s' t r.
  - intros [= <- <- <-]. easy.
  - simpl app.
    rewrite (serve_cons net nick ws i ins), (serve_cons net nick ws i (ins ++ rest)).
    destruct (serve net nick ws [i] s) as [[s1 t1] [e|[]]] eqn:E1; try easy.
    destruct (serve net nick ws ins s1) as [[s2 t2] r2] eqn:E2.
    intros [= <- <- <-] Hr. now rewrite (IH _ _ _ _ E2 Hr).
Qed.

Lemma later_frames_unread_witness :
  serve all_up "alice" 0
    ([Disconnect] ++ [Frame (chat_frame "bob" (JStr "hi"))])
    (shared alice_online)
  = (set_CLIENTS (delete "alice") (shared alice_online), [], inr Returned).
Proof.
  apply (later_frames_unread all_up "alice" 0 [Disconnect]).
  - reflexivity.
  - discriminate.
Defined.

(** X21. [CLIENTS.pop(nick, None)]: the disconnect of a handler whose nick
    has no [CLIENTS] entry (an earlier disconnect under the same nick
    removed it) returns normally and changes no store. *)
Theorem disconnect_without_entry (net : transport) (nick : string) (ws : nat)
    (s : store) :
  CLIENTS s !! nick = None →
  serve net nick ws [Disconnect] s = (s, [], inr Returned).
Proof.
  intros Hc. unfold serve, on_disconnect. simpl. run_M. simpl.
  unfold set_CLIENTS. rewrite (delete_id _ _ Hc). now destruct s.
Qed.

Lemma disconnect_without_entry_witness :
  serve all_up "bob" 1 [Disconnect]
    (shared (step all_up (Deliver 0 Disconnect) superseded))
  = (shared (step all_up (Deliver 0 Disconnect) superseded), [], inr Returned).
Proof.
  apply (disconnect_without_entry all_up "bob" 1).
  vm_compute. reflexivity.
Defined.

(** ** A freed nick *)

(** X22. After a rename the old nick is free again.  Registering it anew
    succeeds (when it is a stripped, non-empty nick) and starts clean: an
    empty queue, no [CLIENTS] entry, and no token of the renamed user
    resolving to it. *)
Theorem freed_nick_registers_clean (old_nick new_nick pw pw' : string)
    (s s1 : store) (t : list event) (resp : json) :
  change_nick old_nick new_nick pw s = (s1, t, inr resp) →
  strip old_nick = old_nick → old_nick ≠ "" → pw' ≠ "" →
  ∃ s2, register old_nick pw' s1 = (s2, [], inr (msg_response "Registered"))
        ∧ USERS s2 !! old_nick = Some (User pw' None)
        ∧ MESSAGES s2 !! old_nick = Some []
        ∧ CLIENTS s2 !! old_nick = None
        ∧ (∀ tok, TOKENS s2 !! tok ≠ Some old_nick).
Proof.
  intros H Hs Hn Hp.
  apply change_nick_inv in H as (u & q & Hu & _ & Hnew & _ & Hs1 & _).
  assert (old_nick ≠ new_nick) as N by congruence.
  assert (USERS s1 !! old_nick = None) as Hfree.
  { rewrite Hs1. simpl. rewrite lookup_insert_ne by congruence.
    apply lookup_delete_eq. }
  assert (CLIENTS s1 !! old_nick = None) as Hc.
  { rewrite Hs1. simpl. destruct (CLIENTS s !! old_nick) eqn:Ec; [|easy].
    rewrite lookup_insert_ne by congruence. apply lookup_delete_eq. }
  assert (∀ tok, TOKENS s1 !! tok ≠ Some old_nick) as Ht.
  { intros tok. rewrite Hs1. simpl. rewrite lookup_fmap.
    destruct (TOKENS s !! tok) as [n|]; simpl; [|easy].
    unfold repoint. case_decide; congruence. }
  eexists. split.
  - unfold register. rewrite Hs.
    rewrite (bool_decide_eq_false_2 _ Hn), (bool_decide_eq_false_2 _ Hp).
    run_M. simpl. rewrite bool_decide_eq_false_2; [reflexivity|].
    rewrite Hfree. now intros [? ?].
  - simpl. rewrite !lookup_insert_eq. easy.
Qed.

Lemma freed_nick_registers_clean_witness :
  ∃ s2, register "bob" "new" rename_after
        = (s2, [], inr (msg_response "Registered"))
        ∧ USERS s2 !! "bob" = Some (User "new" None)
        ∧ MESSAGES s2 !! "bob" = Some [].
Proof.
  destruct (freed_nick_registers_clean "bob" "rob" "pw" "new" rename_before
              rename_after [] (msg_response "Nick changed"))
    as (s2 & E & Hu & Hq & _).
  - vm_compute. reflexivity.
  - reflexivity.
  - discriminate.
  - discriminate.
  - exists s2. repeat split; assumption.
Defined.
